(** * unified-latex-to-pretext: substitution rules for environments and
      MathJax-specific macros

    A shallow embedding of
    - [libs/pre-conversion-subs/environment-subs.ts]  (module [EnvironmentSubs])
    - the MathJax macro replacements file             (module [MathjaxSubs])

    JavaScript objects used as string-keyed records are [gmap string _];
    arrays are lists; a function that can [throw] returns in the error
    monad [Exc]; the two mutable things a Rule can touch (the environment
    node it is given, with the arrays that hang off it, and the [VFile] it
    reports to) are threaded explicitly through the [Outcome] of a Rule. *)

From stdpp Require Import gmap strings list fin_maps.
From Stdlib Require Import ZArith.

Set Warnings "-register-all".

Local Open Scope string_scope.
Local Open Scope list_scope.

(** ** The AST ([@unified-latex/unified-latex-types]) *)

Module Ast.

(** [Record<string, any>] of html attributes; values are kept as text. *)
Abbreviation Attributes := (gmap string string).

Inductive Node : Type :=
| MacroNode (m : Macro)
| EnvironmentNode (e : Environment)
| StringNode (content : string)
| Whitespace
| Parbreak
| Comment (content : string)
| Group (content : list Node)
| HtmlLike (tag : string) (content : list Node) (attributes : Attributes)
with Macro : Type :=
| mkMacro (content : string) (args : option (list Argument))
          (_renderInfo : option RenderInfo)
with Environment : Type :=
| mkEnvironment (env : string) (args : option (list Argument))
                (content : list Node) (_renderInfo : option RenderInfo)
with Argument : Type :=
| mkArgument (openMark closeMark : string) (content : list Node)
with RenderInfo : Type :=
| mkRenderInfo (additionalAttributes : option Attributes)
               (sysdelims : option (list (option (list Node)))).

Definition macro_content (m : Macro) : string :=
  let 'mkMacro c _ _ := m in c.
Definition macro_args (m : Macro) : option (list Argument) :=
  let 'mkMacro _ a _ := m in a.
Definition macro_renderInfo (m : Macro) : option RenderInfo :=
  let 'mkMacro _ _ r := m in r.

Definition env_env (e : Environment) : string :=
  let 'mkEnvironment n _ _ _ := e in n.
Definition env_args (e : Environment) : option (list Argument) :=
  let 'mkEnvironment _ a _ _ := e in a.
Definition env_content (e : Environment) : list Node :=
  let 'mkEnvironment _ _ c _ := e in c.
Definition env_renderInfo (e : Environment) : option RenderInfo :=
  let 'mkEnvironment _ _ _ r := e in r.

Definition arg_openMark (a : Argument) : string :=
  let 'mkArgument o _ _ := a in o.
Definition arg_closeMark (a : Argument) : string :=
  let 'mkArgument _ c _ := a in c.
Definition arg_content (a : Argument) : list Node :=
  let 'mkArgument _ _ c := a in c.

Definition additionalAttributes (r : RenderInfo) : option Attributes :=
  let 'mkRenderInfo a _ := r in a.
Definition sysdelims (r : RenderInfo) : option (list (option (list Node))) :=
  let 'mkRenderInfo _ s := r in s.

(** [env.content = c]: the in-place update of an environment's body. *)
Definition set_env_content (e : Environment) (c : list Node) : Environment :=
  let 'mkEnvironment n a _ r := e in mkEnvironment n a c r.

(** The argument with its content array holding [c]. *)
Definition set_arg_content (a : Argument) (c : list Node) : Argument :=
  let 'mkArgument o cl _ := a in mkArgument o cl c.

(** The macro with its argument array holding [args]. *)
Definition set_macro_args (m : Macro) (args : option (list Argument)) : Macro :=
  let 'mkMacro c _ r := m in mkMacro c args r.

End Ast.
Import Ast.

(** ** Exceptions *)

Inductive JsError : Type :=
| Error (message : string)
| TypeError (message : string).

Inductive Exc (A : Type) : Type :=
| Return (a : A)
| Throw (e : JsError).
Arguments Return {A} a.
Arguments Throw {A} e.

Definition bindExc {A B} (c : Exc A) (k : A → Exc B) : Exc B :=
  match c with
  | Return a => k a
  | Throw e => Throw e
  end.

Notation "'let*' x ':=' c 'in' k" := (bindExc c (λ x, k))
  (at level 10, x name, c at level 100, k at level 200, only parsing).

(** ** The diagnostic sink ([vfile]) *)

Record Position : Type := mkPosition { line : nat; column : nat }.

(** A [VFileMessage]: the text, where it points to, and who reports it. *)
Record VFileMessage : Type := mkMessage {
  reason : string;
  place : option Position;
  source : option string;
}.

(** One call [file.message(reason, place, origin)] as the file logs it. *)
Record Diagnostic : Type := mkDiagnostic {
  diag_reason : VFileMessage;
  diag_place : option Position;
  diag_origin : option string;
}.

Record VFile : Type := mkVFile { messages : list Diagnostic }.

Definition VFile_message (file : VFile) (r : VFileMessage)
    (p : option Position) (o : option string) : VFile :=
  {| messages := messages file ++ [mkDiagnostic r p o] |}.

(** What a Rule hands back to the driver: [Ast.Node | Ast.Node[]]. *)
Inductive Replacement : Type :=
| One (node : Node)
| Many (nodes : list Node).

(** A Rule's result together with the two objects it may have written to:
    the environment node it was called on and the file it reports to
    ([None] when the optional [file] parameter was not passed). *)
Record Outcome : Type := mkOutcome {
  replacement : Replacement;
  env_after : Environment;
  file_after : option VFile;
}.

(** ** [@unified-latex/unified-latex-util-arguments],
       [@unified-latex/unified-latex-util-match],
       [@unified-latex/unified-latex-util-html-like] *)

Module Util.

(** Modelled from the spec: the reading of one parsed argument slot, missing
    from the sources ([unified-latex-util-arguments]).  A slot that was not
    supplied (no open mark and nothing inside) reads as [null]; a slot that
    was supplied reads as its node sequence, also when that is empty. *)
Definition argValue (arg : Argument) : option (list Node) :=
  if bool_decide (arg_openMark arg = EmptyString)
     && bool_decide (length (arg_content arg) = 0)
  then None
  else Some (arg_content arg).

(** Modelled from the spec: [getArgsContent] (the spec's
    [extractPositionalSlots(node) -> sequence]), missing from the sources.
    It is applied to the [args] field of the node; a node without an
    argument array has no slots. *)
Definition getArgsContent (args : option (list Argument))
    : list (option (list Node)) :=
  match args with
  | None => []
  | Some args => argValue <$> args
  end.

(** Modelled from the spec: [getNamedArgsContent] (the spec's
    [extractNamedSlots(node, signature) -> mapping]), missing from the
    sources.  The i-th argument is stored under the i-th name of the
    signature; a [null] name, or no name at that position, stores nothing. *)
Definition getNamedArgsContent (args : option (list Argument))
    (names : list (option string)) : gmap string (option (list Node)) :=
  match args with
  | None => ∅
  | Some args =>
      foldl (λ ret '(i, arg),
               match names !! i with
               | Some (Some name) => <[name := argValue arg]> ret
               | _ => ret
               end)
            ∅ (imap pair args)
  end.

(** Modelled from the spec: [match.macro(node)] and [match.macro(node, name)]
    of the structural pattern-matching utility, missing from the sources. *)
Definition match_macro (node : Node) (name : option string) : bool :=
  match node with
  | MacroNode m =>
      match name with
      | None => true
      | Some n => bool_decide (macro_content m = n)
      end
  | _ => false
  end.

(** Modelled from the spec: [htmlLike({tag, content, attributes})] (the spec's
    [buildBlock(tag, content, attributes?) -> Node]), missing from the
    sources: an opaque node that stands for the target tag. *)
Definition htmlLike (tag : string) (content : list Node)
    (attributes : option Attributes) : Node :=
  HtmlLike tag content (default ∅ attributes).

Definition tagOf (node : Node) : option string :=
  match node with
  | HtmlLike tag _ _ => Some tag
  | _ => None
  end.

Definition contentOf (node : Node) : list Node :=
  match node with
  | HtmlLike _ content _ => content
  | _ => []
  end.

End Util.
Import Util.

(** ** [libs/pre-conversion-subs/environment-subs.ts] *)

Module EnvironmentSubs.

Definition ITEM_ARG_NAMES_REG : list (option string) := [Some "label"].
Definition ITEM_ARG_NAMES_BEAMER : list (option string) :=
  [None; Some "label"; None].

(** [ItemArgs]: the [label] key as read from the named-argument object
    ([None]: no such key, [Some None]: [null]) and the [body]. *)
Record ItemArgs : Type := mkItemArgs {
  label : option (option (list Node));
  body : list Node;
}.

(** Extract the arguments to an [\item] macro.  [Object.assign] merges
    [{body}] with the named arguments; the two signatures name no slot
    other than [label], so [body] is never overwritten. *)
Definition getItemArgs (node : Macro) : Exc ItemArgs :=
  match macro_args node with
  | None =>
      Throw (Error "Cannot find \item macros arguments; you must attach the \item body to the macro before calling this function")
  | Some args =>
      let argNames :=
        if bool_decide ((Z.of_nat (length args) - 1)%Z
                        = Z.of_nat (length ITEM_ARG_NAMES_BEAMER))
        then ITEM_ARG_NAMES_BEAMER
        else ITEM_ARG_NAMES_REG in
      match last args with
      | None =>
          (* node.args[-1] is undefined *)
          Throw (TypeError "Cannot read properties of undefined (reading 'content')")
      | Some bodyArg =>
          let named := getNamedArgsContent (macro_args node) argNames in
          Return {| label := named !! "label"; body := arg_content bodyArg |}
      end
  end.

(** An array variable of a Rule body: either an array the Rule allocated
    itself, or the very array stored in [env.content]. *)
Inductive ContentRef : Type :=
| FreshArray (elems : list Node)
| EnvContent.

Definition deref (env : Environment) (r : ContentRef) : list Node :=
  match r with
  | FreshArray elems => elems
  | EnvContent => env_content env
  end.

(** [r.unshift(x)]: writes through to the environment when [r] is its
    content array. *)
Definition unshift (x : Node) (r : ContentRef) (env : Environment)
    : ContentRef * Environment :=
  match r with
  | FreshArray elems => (FreshArray (x :: elems), env)
  | EnvContent => (EnvContent, set_env_content env (x :: env_content env))
  end.

Record EnvFactoryOptions : Type := mkOptions {
  requiresStatementTag : option bool;
  wrapContentInPars : option bool;
  extractTitleFromArgs : option bool;
  warningMessage : option string;
}.

Definition noOptions : EnvFactoryOptions :=
  {| requiresStatementTag := None; wrapContentInPars := None;
     extractTitleFromArgs := None; warningMessage := None |}.

(** The text of the warning [removeEnv] reports for the environment [name]. *)
Definition removeEnvWarning (name : string) : string :=
  let quote := String (Ascii.ascii_of_nat 34) EmptyString in
  ("Warning: There is no equivalent tag for " +:+ quote)
  +:+ name
  +:+ (quote +:+ ", so the " +:+ name +:+ " environment was removed.").

Record AliasSpec : Type := mkAliasSpec {
  requiresStatement : bool;
  aliases : list string;
}.

(** The table of pretext environments and their aliases, in the order of
    the object literal ([Object.entries] order). *)
Definition envAliases : list (string * AliasSpec) := [
  ("abstract", mkAliasSpec false ["abs"; "abstr"]);
  ("acknowledgement", mkAliasSpec false ["ack"]);
  ("algorithm", mkAliasSpec true ["algo"; "alg"]);
  ("answer", mkAliasSpec false ["ans"]);
  ("assumption", mkAliasSpec true ["assu"; "ass"]);
  ("axiom", mkAliasSpec true ["axm"]);
  ("claim", mkAliasSpec true ["cla"]);
  ("conjecture", mkAliasSpec true ["con"; "conj"; "conjec"]);
  ("construction", mkAliasSpec false []);
  ("convention", mkAliasSpec false ["conv"]);
  ("corollary", mkAliasSpec true ["cor"; "corr"; "coro"; "corol"; "corss"]);
  ("definition", mkAliasSpec true ["def"; "defn"; "dfn"; "defi"; "defin"; "de"]);
  ("example", mkAliasSpec true ["exam"; "exa"; "eg"; "exmp"; "expl"; "exm"]);
  ("exercise", mkAliasSpec true ["exer"; "exers"]);
  ("exploration", mkAliasSpec false []);
  ("fact", mkAliasSpec true []);
  ("heuristic", mkAliasSpec true []);
  ("hint", mkAliasSpec false []);
  ("hypothesis", mkAliasSpec true ["hyp"]);
  ("identity", mkAliasSpec true ["idnty"]);
  ("insight", mkAliasSpec false []);
  ("investigation", mkAliasSpec false []);
  ("lemma", mkAliasSpec true ["lem"; "lma"; "lemm"; "lm"]);
  ("notation", mkAliasSpec false ["no"; "nota"; "ntn"; "nt"; "notn"; "notat"]);
  ("note", mkAliasSpec false ["notes"]);
  ("observation", mkAliasSpec false ["obs"]);
  ("principle", mkAliasSpec true []);
  ("problem", mkAliasSpec true ["prob"; "prb"]);
  ("project", mkAliasSpec false []);
  ("proof", mkAliasSpec false ["pf"; "prf"; "demo"]);
  ("proposition", mkAliasSpec true ["prop"; "pro"; "prp"; "props"]);
  ("question", mkAliasSpec true ["qu"; "ques"; "quest"; "qsn"]);
  ("remark", mkAliasSpec false ["rem"; "rmk"; "rema"; "bem"; "subrem"]);
  ("task", mkAliasSpec true []);
  ("theorem", mkAliasSpec true ["thm"; "theo"; "theor"; "thmss"; "thrm"]);
  ("solution", mkAliasSpec false ["sol"]);
  ("warning", mkAliasSpec false ["warn"; "wrn"])
].

(** [Object.fromEntries]: later entries overwrite earlier ones.  The map
    holds the own properties of the object; what a property access would
    find further up the prototype chain is not part of it. *)
Definition fromEntries {V} (entries : list (string * V)) : gmap string V :=
  foldl (λ obj kv, <[kv.1 := kv.2]> obj) ∅ entries.

(** An object literal [{ k1: v1, ..., kn: vn, ...spread }]: the listed
    properties are defined first, then every property of [spread] is
    copied over them. *)
Definition objectWithSpread {V} (listed : list (string * V))
    (spread : gmap string V) : gmap string V :=
  spread ∪ fromEntries listed.

(** What a call [wrapPars(nodes)] comes to: the array it returns, and the
    elements the array [nodes] itself holds once the call is over (the
    utility works on the array it is given). *)
Record Wrapped : Type := mkWrapped {
  paragraphs : list Node;
  trimmed : list Node;
}.

(** The [items] of [enumerateToHtml] are the very nodes that sit in
    [env.content]: what has been done to them shows in the content, at
    the places of the nodes the filter selected. *)
Fixpoint writeBack (content items : list Node) : list Node :=
  match content with
  | [] => []
  | node :: rest =>
      if match_macro node (Some "item") then
        match items with
        | item :: items => item :: writeBack rest items
        | [] => node :: writeBack rest []
        end
      else node :: writeBack rest items
  end.

Section Rules.

(** Collaborators that are not part of this file. *)

(** The traversal position handed to every Rule; no Rule here reads it. *)
Variable VisitInfo : Type.
(** [wrapPars] of [../wrap-pars]: groups a node sequence into paragraphs,
    which it returns in a newly built array; the array it is given is the
    caller's own, and whatever it does to it stays done. *)
Variable wrapPars : list Node → Wrapped.
(** [makeWarningMessage(node, message, warningType)] of [./utils]. *)
Variable makeWarningMessage : Node → string → string → VFileMessage.

Definition Rule : Type :=
  Environment → VisitInfo → option VFile → Exc Outcome.

(** [createTableFromTabular] of [./create-table-from-tabular]. *)
Variable createTableFromTabular : Rule.

(** The callback of [items.flatMap] in [enumerateToHtml], with the captured
    flag [isDescriptionList] passed in and out, and the node as the call
    leaves it.  [namedArgs.body] is the content array of the last
    argument, so that is the array [wrapPars] works on; with a single
    argument the label is that same array, and the title holds what is in
    it after the call. *)
Definition itemToHtml (node : Node) (isDescriptionList : bool)
    : Exc (list Node * bool * Node) :=
  match node with
  | MacroNode m =>
      match macro_args m with
      | None => Return ([], isDescriptionList, node)
      | Some args =>
          let* namedArgs := getItemArgs m in
          let wrapped := wrapPars (body namedArgs) in
          let node :=
            MacroNode
              (set_macro_args m
                 (Some (alter (λ a, set_arg_content a (trimmed wrapped))
                              (length args - 1) args))) in
          let body := paragraphs wrapped in
          match label namedArgs with
          | Some (Some lbl) =>
              let lbl :=
                if bool_decide (length args = 1) then trimmed wrapped else lbl in
              Return ([htmlLike "li" (htmlLike "title" lbl None :: body) None],
                      true, node)
          | _ => Return ([htmlLike "li" body None], isDescriptionList, node)
          end
      end
  | _ => Return ([], isDescriptionList, node)
  end.

Fixpoint itemsFlatMap (items : list Node) (isDescriptionList : bool)
    : Exc (list Node * bool * list Node) :=
  match items with
  | [] => Return ([], isDescriptionList, [])
  | node :: rest =>
      let* r := itemToHtml node isDescriptionList in
      let* rs := itemsFlatMap rest r.1.2 in
      Return (r.1.1 ++ rs.1.1, rs.1.2, r.2 :: rs.2)
  end.

Definition enumerateFactory (parentTag : string) : Rule :=
  λ env _ file,
    let items :=
      List.filter (λ node, match_macro node (Some "item")) (env_content env) in
    let* r := itemsFlatMap items false in
    Return {| replacement :=
                One (htmlLike (if r.1.2 then "dl" else parentTag) r.1.1 None);
              env_after := set_env_content env (writeBack (env_content env) r.2);
              file_after := file |}.

Definition envFactory (tag : string) (options : EnvFactoryOptions) : Rule :=
  let requiresStatementTag := default false (requiresStatementTag options) in
  let wrapContentInPars := default true (wrapContentInPars options) in
  let extractTitleFromArgs := default true (extractTitleFromArgs options) in
  let warningMessage := default EmptyString (warningMessage options) in
  λ env info file,
    (* add a warning message to the file if needed *)
    let file :=
      match file with
      | Some f =>
          if bool_decide (warningMessage = EmptyString) then Some f
          else
            let message :=
              makeWarningMessage (EnvironmentNode env) warningMessage "env-subs" in
            Some (VFile_message f message (place message) (source message))
      | None => None
      end in
    (* Wrap content of the environment in paragraph tags *)
    let '(content, env) :=
      if wrapContentInPars then
        let wrapped := wrapPars (env_content env) in
        (FreshArray (paragraphs wrapped), set_env_content env (trimmed wrapped))
      else (EnvContent, env) in
    (* Add a statement around the contents of the environment if requested. *)
    let content :=
      if requiresStatementTag
      then FreshArray [htmlLike "statement" (deref env content) None]
      else content in
    (* Add a title tag if the environment has a title *)
    let '(content, env) :=
      if extractTitleFromArgs then
        let args := getArgsContent (env_args env) in
        match args !! 0 with
        | Some (Some title) => unshift (htmlLike "title" title None) content env
        | _ => (content, env)
        end
      else (content, env) in
    (* attach any additional attributes from renderInfo to the tag *)
    let attributes : Attributes :=
      match env_renderInfo env ≫= additionalAttributes with
      | Some extra => extra ∪ ∅
      | None => ∅
      end in
    Return {| replacement := One (htmlLike tag (deref env content) (Some attributes));
              env_after := env;
              file_after := file |}.

(** Remove the env environment by returning the content in env only. *)
Definition removeEnv : Rule :=
  λ env info file,
    let file :=
      match file with
      | Some f =>
          Some (VFile_message f
                  (makeWarningMessage (EnvironmentNode env)
                     (removeEnvWarning (env_env env)) "environment-subs")
                  None None)
      | None => None
      end in
    Return {| replacement := Many (env_content env);
              env_after := env;
              file_after := file |}.

(** The flatMap over [Object.entries(envAliases)]. *)
Definition expandAliases (table : list (string * AliasSpec))
    : list (string * Rule) :=
  flat_map
    (λ '(env, spec),
       let options :=
         {| requiresStatementTag := Some (requiresStatement spec);
            wrapContentInPars := None; extractTitleFromArgs := None;
            warningMessage := None |} in
       (env, envFactory env options)
       :: map (λ name, (name, envFactory env options)) (aliases spec))
    table.

Definition genEnvironmentReplacementsFrom (table : list (string * AliasSpec))
    : gmap string Rule :=
  fromEntries (expandAliases table).

Definition genEnvironmentReplacements : gmap string Rule :=
  genEnvironmentReplacementsFrom envAliases.

Definition containerOptions : EnvFactoryOptions :=
  {| requiresStatementTag := Some false; wrapContentInPars := Some false;
     extractTitleFromArgs := Some false; warningMessage := None |}.

(** The properties written out in the [environmentReplacements] literal. *)
Definition explicitReplacements : list (string * Rule) := [
  ("enumerate", enumerateFactory "ol");
  ("itemize", enumerateFactory "ul");
  ("tabular", createTableFromTabular);
  ("center", envFactory "blockquote" noOptions);
  ("quote", envFactory "blockquote" noOptions);
  ("figure", envFactory "figure" containerOptions);
  ("table", envFactory "table" containerOptions)
].

(** The registry object, as the map of its own properties. *)
Definition environmentReplacements : gmap string Rule :=
  objectWithSpread explicitReplacements genEnvironmentReplacements.

End Rules.

End EnvironmentSubs.

(** ** The MathJax-specific macro replacements *)

Module MathjaxSubs.

Definition LEFT : Node := MacroNode (mkMacro "left" None None).
Definition RIGHT : Node := MacroNode (mkMacro "right" None None).
Definition DEFAULT_LEFT_DELIM : Node := MacroNode (mkMacro "{" None None).
Definition DEFAULT_RIGHT_DELIM : Node := StringNode ".".

(** The options object handed to [systemeContentsToArray]. *)
Record SystemeOptions : Type := mkSystemeOptions {
  properSpacing : bool;
  whitelistedVariables : option (list Node);
}.

Section Replacements.

(** The two calls made inside the [try] block.  Both are calls into other
    packages; whatever they throw is caught by the block, so each is taken
    as a computation in [Exc].  Everything below holds for every behaviour
    of the two. *)
Variable getArgsContent : Macro → Exc (list (option (list Node))).
Variable systemeContentsToArray : list Node → SystemeOptions → Exc Node.

(** The body of the [try] block of the [systeme] rule. *)
Definition systemeTry (node : Macro) : Exc (list Node) :=
  let* args := getArgsContent node in
  (* args[1] || undefined *)
  let whitelistedVariables := mjoin (args !! 1) in
  (* args[3] || [] *)
  let equations := default [] (mjoin (args !! 3)) in
  let* ret :=
    systemeContentsToArray equations
      {| properSpacing := false; whitelistedVariables := whitelistedVariables |} in
  (* If we have information about the sysdelims, then apply them *)
  match macro_renderInfo node ≫= sysdelims with
  | Some delims =>
      let frontDelim := mjoin (delims !! 0) in
      let backDelim := mjoin (delims !! 1) in
      Return ([LEFT] ++ default [] frontDelim ++ [ret] ++ [RIGHT]
              ++ default [] backDelim)
  | None => Return [LEFT; DEFAULT_LEFT_DELIM; ret; RIGHT; DEFAULT_RIGHT_DELIM]
  end.

(** [try { ... } catch (e) { return node; }] *)
Definition systeme (node : Macro) : Replacement :=
  match systemeTry node with
  | Return nodes => Many nodes
  | Throw _ => One (MacroNode node)
  end.

Definition sysdelim (_ : Macro) : Replacement := Many [].

Definition mathjaxSpecificMacroReplacements : gmap string (Macro → Replacement) :=
  EnvironmentSubs.fromEntries [("systeme", systeme); ("sysdelim", sysdelim)].

End Replacements.

End MathjaxSubs.

(** ** Concrete collaborators and sample documents

    Instances of the collaborators the rule definitions are parameterised
    by, used to run the rules on sample documents. *)

Module Sample.

(** Modelled from the spec: the paragraph-wrapping utility [wrapPars],
    missing from the sources: the body is split into chunks at paragraph
    breaks and every non-empty chunk becomes one paragraph element.  The
    utility first trims blank nodes off both ends of the array it is
    given, in place. *)
Definition isBlank (node : Node) : bool :=
  match node with
  | Whitespace | Parbreak => true
  | _ => false
  end.

Fixpoint trimStart (nodes : list Node) : list Node :=
  match nodes with
  | node :: rest => if isBlank node then trimStart rest else nodes
  | [] => []
  end.

Definition trim (nodes : list Node) : list Node :=
  reverse (trimStart (reverse (trimStart nodes))).

Fixpoint splitPars (nodes : list Node) (chunk : list Node) : list (list Node) :=
  match nodes with
  | [] => [reverse chunk]
  | Parbreak :: rest => reverse chunk :: splitPars rest []
  | node :: rest => splitPars rest (node :: chunk)
  end.

Definition wrapPars (nodes : list Node) : EnvironmentSubs.Wrapped :=
  {| EnvironmentSubs.paragraphs :=
       flat_map
         (λ chunk, match chunk with
                   | [] => []
                   | _ => [htmlLike "p" chunk None]
                   end)
         (splitPars (trim nodes) []);
     EnvironmentSubs.trimmed := trim nodes |}.

(** Modelled from the spec: [makeWarningMessage], missing from the sources:
    the message carries the given text and names the reporting rule set. *)
Definition makeWarningMessage (node : Node) (message warningType : string)
    : VFileMessage :=
  {| reason := message; place := None;
     source := Some ("unified-latex-to-pretext:" +:+ warningType) |}.

Definition VisitInfo : Type := unit.

(** A stand-in for the table conversion delegate. *)
Definition createTableFromTabular : EnvironmentSubs.Rule VisitInfo :=
  λ env _ file,
    Return {| replacement := One (htmlLike "tabular" (env_content env) None);
              env_after := env; file_after := file |}.

Definition enumerateFactory := EnvironmentSubs.enumerateFactory VisitInfo wrapPars.
Definition envFactory :=
  EnvironmentSubs.envFactory VisitInfo wrapPars makeWarningMessage.
Definition removeEnv := EnvironmentSubs.removeEnv VisitInfo makeWarningMessage.
Definition environmentReplacements :=
  EnvironmentSubs.environmentReplacements
    VisitInfo wrapPars makeWarningMessage createTableFromTabular.

Definition optArg (content : list Node) : Argument := mkArgument "[" "]" content.
Definition noArg : Argument := mkArgument EmptyString EmptyString [].
Definition bodyArg (content : list Node) : Argument :=
  mkArgument EmptyString EmptyString content.

Definition item (args : list Argument) : Node :=
  MacroNode (mkMacro "item" (Some args) None).

(** [\begin{thm}[Pythagoras] a b \end{thm}] *)
Definition thmPythagoras : Environment :=
  mkEnvironment "thm" (Some [optArg [StringNode "Pythagoras"]])
    [StringNode "a"; Whitespace; StringNode "b"] None.

(** An itemize with one labelled and one unlabelled item. *)
Definition mixedList : Environment :=
  mkEnvironment "itemize" None
    [ item [optArg [StringNode "Key"]; bodyArg [StringNode "a"]];
      Whitespace;
      item [noArg; bodyArg [StringNode "b"]] ] None.

(** An itemize with two unlabelled items. *)
Definition plainList : Environment :=
  mkEnvironment "itemize" None
    [ item [noArg; bodyArg [StringNode "a"]];
      item [noArg; bodyArg [StringNode "b"]] ] None.

(** An itemize whose only item was written [\item[] a]. *)
Definition emptyLabelList : Environment :=
  mkEnvironment "itemize" None
    [ item [optArg []; bodyArg [StringNode "a"]] ] None.

(** An [\item] with two slots in front of its body. *)
Definition twoSlotItem : Macro :=
  mkMacro "item"
    (Some [optArg [StringNode "x"]; optArg [StringNode "y"];
           bodyArg [StringNode "a"]]) None.

(** A figure with an optional argument. *)
Definition figureWithArg : Environment :=
  mkEnvironment "figure" (Some [optArg [StringNode "h"]])
    [StringNode "picture"] None.

Definition emptyFile : VFile := {| messages := [] |}.

Definition quoteEnv : Environment :=
  mkEnvironment "quote" None [StringNode "q"] None.

(** [\begin{quote} q \end{quote}], with the blanks around the text. *)
Definition quoteSpaced : Environment :=
  mkEnvironment "quote" None [Whitespace; StringNode "q"; Whitespace] None.

(** An itemize with [\item[] a] and an [\item] whose argument array is
    empty. *)
Definition emptyLabelAndBareItem : Environment :=
  mkEnvironment "itemize" None
    [ item [optArg []; bodyArg [StringNode "a"]]; item [] ] None.

(** Look a selector up in a registry and run the Rule found there. *)
Definition runRule (registry : gmap string (EnvironmentSubs.Rule VisitInfo))
    (env : Environment) (file : option VFile) : option (Exc Outcome) :=
  let found : option (EnvironmentSubs.Rule VisitInfo) :=
    registry !! env_env env in
  match found with
  | Some rule => Some (rule env tt file)
  | None => None
  end.

(** Argument extraction as the utility does it: it returns. *)
Definition getArgsContent (node : Macro) : Exc (list (option (list Node))) :=
  Return (Util.getArgsContent (macro_args node)).

(** A stand-in for the array conversion: the equations end up in an
    array environment. *)
Definition systemeContentsToArray (equations : list Node)
    (options : MathjaxSubs.SystemeOptions) : Exc Node :=
  Return (EnvironmentNode (mkEnvironment "array" None equations None)).

(** A conversion that gives up. *)
Definition failingContentsToArray (equations : list Node)
    (options : MathjaxSubs.SystemeOptions) : Exc Node :=
  Throw (Error "cannot convert").

Definition systemeArgs : list Argument :=
  [noArg; noArg; noArg; mkArgument "{" "}" [StringNode "x+y=1"]].

(** [\systeme{x+y=1}] with nothing attached. *)
Definition systemePlain : Macro := mkMacro "systeme" (Some systemeArgs) None.

(** An itemize whose item body starts with a blank. *)
Definition spacedList : Environment :=
  mkEnvironment "itemize" None
    [ item [noArg; bodyArg [Whitespace; StringNode "a"]]; Whitespace ] None.

(** An [\item] whose only argument is its body. *)
Definition bodyOnlyItem : Macro :=
  mkMacro "item" (Some [bodyArg [StringNode "a"]]) None.

(** [\begin{proof} done \end{proof}] *)
Definition proofEnv : Environment :=
  mkEnvironment "proof" (Some [noArg]) [StringNode "done"] None.

(** [\systeme{x+y=1}] with a hint that resolved no delimiter. *)
Definition systemeEmptyHint : Macro :=
  mkMacro "systeme" (Some systemeArgs) (Some (mkRenderInfo None (Some []))).

(** [\systeme{x+y=1}] after [\sysdelim[]] was seen. *)
Definition systemeBrackets : Macro :=
  mkMacro "systeme" (Some systemeArgs)
    (Some (mkRenderInfo None
             (Some [Some [StringNode "["]; Some [StringNode "]"]]))).

End Sample.

(** ** Vocabulary for the statements about lists *)

Module ListSpec.
Import EnvironmentSubs.

(** The arguments [getItemArgs] extracts from a node, when it is a macro
    from which they can be extracted. *)
Definition itemArgsOf (node : Node) : option ItemArgs :=
  match node with
  | MacroNode m =>
      match getItemArgs m with
      | Return namedArgs => Some namedArgs
      | Throw _ => None
      end
  | _ => None
  end.

(** The item carries a label that is not [null]. *)
Definition carriesLabel (node : Node) : bool :=
  match itemArgsOf node with
  | Some namedArgs =>
      match label namedArgs with
      | Some (Some _) => true
      | _ => false
      end
  | None => false
  end.

(** No [\item] of the sequence has an argument array that is empty: an
    item either has no arguments at all or has at least its body. *)
Definition bodiesAttached (nodes : list Node) : Prop :=
  ∀ m, MacroNode m ∈ nodes → macro_content m = "item" → macro_args m ≠ Some [].

(** The macro has exactly one argument, which is then both its label
    slot and its body. *)
Definition hasSingleArgument (node : Node) : bool :=
  match node with
  | MacroNode m => bool_decide (length <$> macro_args m = Some 1)
  | _ => false
  end.

Section WithWrapPars.
Variable wrapPars : list Node → Wrapped.

(** The list-item element of one item: its paragraph-grouped body, with a
    title in front when the item carries a label; nothing for a node that
    has no arguments.  The title holds the label; when the label is the
    body array itself (a single argument), it holds what [wrapPars] left
    in that array. *)
Definition liOf (node : Node) : list Node :=
  match itemArgsOf node with
  | Some namedArgs =>
      let wrapped := wrapPars (body namedArgs) in
      [htmlLike "li"
         (match label namedArgs with
          | Some (Some lbl) =>
              htmlLike "title"
                (if hasSingleArgument node then trimmed wrapped else lbl) None
              :: paragraphs wrapped
          | _ => paragraphs wrapped
          end) None]
  | None => []
  end.

(** The item node once its body has been through [wrapPars]: the content
    array of its last argument holds what the call left there. *)
Definition itemAfter (node : Node) : Node :=
  match node with
  | MacroNode m =>
      match macro_args m, itemArgsOf node with
      | Some args, Some namedArgs =>
          MacroNode
            (set_macro_args m
               (Some (alter (λ a, set_arg_content a
                                    (trimmed (wrapPars (body namedArgs))))
                            (length args - 1) args)))
      | _, _ => node
      end
  | _ => node
  end.

End WithWrapPars.

End ListSpec.

(** ** Vocabulary for the statements about blocks *)

Module BlockSpec.
Import EnvironmentSubs.

(** The first argument of the environment, when it was supplied. *)
Definition suppliedTitle (env : Environment) : option (list Node) :=
  mjoin (getArgsContent (env_args env) !! 0).

(** The attributes an earlier pass attached to the environment. *)
Definition attachedAttributes (env : Environment) : Attributes :=
  default ∅ (env_renderInfo env ≫= additionalAttributes).

(** The Rule prepends the title to the environment's own content array:
    paragraph wrapping and the statement wrapper are both off, so no new
    array was built, and a title is extracted. *)
Definition writesThrough (options : EnvFactoryOptions) (env : Environment)
    : bool :=
  negb (default true (wrapContentInPars options))
  && negb (default false (requiresStatementTag options))
  && default true (extractTitleFromArgs options)
  && bool_decide (is_Some (suppliedTitle env)).

Section WithWrapPars.
Variable wrapPars : list Node → Wrapped.

(** The content of the block, from the inside out: the body (grouped into
    paragraphs unless switched off), the statement wrapper (if requested),
    the title in front (if extraction is on and a title was supplied). *)
Definition composedContent (options : EnvFactoryOptions) (env : Environment)
    : list Node :=
  let grouped :=
    if default true (wrapContentInPars options)
    then paragraphs (wrapPars (env_content env)) else env_content env in
  let wrapped :=
    if default false (requiresStatementTag options)
    then [htmlLike "statement" grouped None] else grouped in
  match suppliedTitle env with
  | Some title =>
      if default true (extractTitleFromArgs options)
      then htmlLike "title" title None :: wrapped else wrapped
  | None => wrapped
  end.

(** The environment node once a block rule with paragraph wrapping on has
    run: its content array holds what [wrapPars] left there. *)
Definition envAfterWrap (env : Environment) : Environment :=
  set_env_content env (trimmed (wrapPars (env_content env))).

End WithWrapPars.

(** The options the alias table gives a block. *)
Definition aliasOptions (spec : AliasSpec) : EnvFactoryOptions :=
  {| requiresStatementTag := Some (requiresStatement spec);
     wrapContentInPars := None; extractTitleFromArgs := None;
     warningMessage := None |}.

(** The selector names the alias table gives rise to. *)
Definition aliasNames (table : list (string * AliasSpec)) : list string :=
  flat_map (λ entry, entry.1 :: aliases entry.2) table.

End BlockSpec.

(** ** Vocabulary for the statements about the registry and list items *)

Module RegistrySpec.
Import EnvironmentSubs.

(** The selectors written out in the [environmentReplacements] literal. *)
Definition explicitNames : list string :=
  ["enumerate"; "itemize"; "tabular"; "center"; "quote"; "figure"; "table"].

(** The canonical names of an alias table. *)
Definition canonicalNames (table : list (string * AliasSpec)) : list string :=
  table.*1.

(** The node is a macro that has an argument array. *)
Definition hasArguments (node : Node) : bool :=
  match node with
  | MacroNode m => bool_decide (is_Some (macro_args m))
  | _ => false
  end.

(** An [\item] in the one-slot form whose label slot was not supplied and
    whose body is [itemBody]. *)
Definition unlabelledItem (node : Node) (itemBody : list Node) : Prop :=
  ∃ m lbl bodyArg,
    node = MacroNode m
    ∧ macro_content m = "item"
    ∧ macro_args m = Some [lbl; bodyArg]
    ∧ arg_openMark lbl = EmptyString
    ∧ arg_content lbl = []
    ∧ arg_content bodyArg = itemBody.

(** The node sequence a Rule handed back. *)
Definition replacementNodes (r : Replacement) : list Node :=
  match r with
  | One node => [node]
  | Many nodes => nodes
  end.

End RegistrySpec.

(** * Facts about argument extraction *)

Section ArgumentFacts.
Import EnvironmentSubs.

Lemma argValue_supplied (arg : Argument) :
  arg_openMark arg ≠ EmptyString → argValue arg = Some (arg_content arg).
Proof.
  intros Hopen. unfold argValue.
  rewrite (bool_decide_eq_false_2 _ Hopen). reflexivity.
Qed.

Lemma argValue_absent (arg : Argument) :
  arg_openMark arg = EmptyString → arg_content arg = [] → argValue arg = None.
Proof.
  intros Hopen Hc. unfold argValue. rewrite Hopen, Hc. reflexivity.
Qed.

(** Arguments at positions the signature does not name leave the
    named-argument object as it is. *)
Lemma named_fold_unnamed (names : list (option string)) (args : list Argument) :
  ∀ (h : nat → nat) (ret : gmap string (option (list Node))),
    (∀ i, names !! h i = None ∨ names !! h i = Some None) →
    foldl (λ ret '(i, arg),
             match names !! i with
             | Some (Some name) => <[name := argValue arg]> ret
             | _ => ret
             end)
          ret (imap (λ i arg, (h i, arg)) args) = ret.
Proof.
  induction args as [|arg args IH]; intros h ret Hh; [reflexivity|].
  simpl. rewrite (IH (h ∘ S) _).
  - destruct (Hh 0) as [-> | ->]; reflexivity.
  - intros i. apply Hh.
Qed.

Lemma getNamedArgsContent_reg (first : Argument) (rest : list Argument) :
  getNamedArgsContent (Some (first :: rest)) ITEM_ARG_NAMES_REG
  = <["label" := argValue first]> ∅.
Proof.
  unfold getNamedArgsContent. simpl.
  apply (named_fold_unnamed ITEM_ARG_NAMES_REG rest S).
  intros i. left. reflexivity.
Qed.

Lemma getNamedArgsContent_beamer (a lbl c bodyArg : Argument) :
  getNamedArgsContent (Some [a; lbl; c; bodyArg]) ITEM_ARG_NAMES_BEAMER
  = <["label" := argValue lbl]> ∅.
Proof. reflexivity. Qed.

(** [getItemArgs] on an argument array that is not empty. *)
Lemma getItemArgs_returns (node : Macro) (args : list Argument) :
  macro_args node = Some args →
  args ≠ [] →
  ∃ slot bodyArg,
    args !! (if bool_decide (length args = 4) then 1 else 0) = Some slot
    ∧ last args = Some bodyArg
    ∧ getItemArgs node
      = Return {| label := Some (argValue slot); body := arg_content bodyArg |}.
Proof.
  intros Hargs Hne. unfold getItemArgs. rewrite Hargs.
  destruct (last args) as [bodyArg|] eqn:Hlast;
    [|apply last_None in Hlast; contradiction].
  destruct (decide (length args = 4)) as [H4|H4].
  - destruct args as [|a [|lbl [|c [|b [|? ?]]]]]; try discriminate H4.
    exists lbl, bodyArg. split; [reflexivity|]. split; [reflexivity|].
    rewrite getNamedArgsContent_beamer, lookup_insert_eq. reflexivity.
  - destruct args as [|first rest]; [contradiction|].
    exists first, bodyArg.
    rewrite (bool_decide_eq_false_2 _ H4). split; [reflexivity|].
    split; [reflexivity|].
    rewrite bool_decide_eq_false_2.
    + rewrite getNamedArgsContent_reg, lookup_insert_eq. reflexivity.
    + simpl length in *. lia.
Qed.

(** A label slot that was supplied empty reads as the empty sequence; a
    label slot that was not supplied reads as [null]. *)
Lemma getItemArgs_label_slot (node : Macro) (lbl bodyArg : Argument) :
  (macro_args node = Some [lbl; bodyArg]
   ∨ ∃ a c, macro_args node = Some [a; lbl; c; bodyArg]) →
  arg_content lbl = [] →
  getItemArgs node
  = Return {| label := Some (if bool_decide (arg_openMark lbl = EmptyString)
                             then None else Some []);
              body := arg_content bodyArg |}.
Proof.
  intros Hargs Hempty.
  assert (argValue lbl
          = if bool_decide (arg_openMark lbl = EmptyString) then None else Some [])
    as Hval.
  { unfold argValue. rewrite Hempty. cbn. rewrite andb_true_r. reflexivity. }
  destruct Hargs as [Hargs | (a & c & Hargs)];
    destruct (getItemArgs_returns node _ Hargs ltac:(discriminate))
      as (slot & b & Hslot & Hlast & ->);
    cbn in Hslot, Hlast; injection Hslot as <-; injection Hlast as <-;
    rewrite Hval; reflexivity.
Qed.

End ArgumentFacts.

(** C8 (as amended).  Item-argument extraction raises when the item has no
    argument array (its body was never attached).  It does not compare the
    number of arguments with the two signatures in order to reject a node:
    on every argument array that is not empty it returns, reading the label
    from the second argument when there are exactly four (the three-slot
    form plus the body) and from the first argument otherwise, and the body
    from the last argument. *)
Theorem getItemArgs_selects_signature_without_rejecting (node : Macro) :
  (macro_args node = None →
     ∃ message, EnvironmentSubs.getItemArgs node = Throw (Error message))
  ∧ (∀ args, macro_args node = Some args → args ≠ [] →
       ∃ slot bodyArg,
         args !! (if bool_decide (length args = 4) then 1 else 0) = Some slot
         ∧ last args = Some bodyArg
         ∧ EnvironmentSubs.getItemArgs node
           = Return {| EnvironmentSubs.label := Some (argValue slot);
                       EnvironmentSubs.body := arg_content bodyArg |}).
Proof.
  split.
  - intros Hnone. unfold EnvironmentSubs.getItemArgs. rewrite Hnone. eauto.
  - intros args Hargs Hne. exact (getItemArgs_returns node args Hargs Hne).
Qed.

(** An item with two slots in front of its body matches neither signature,
    and its arguments are extracted all the same. *)
Lemma getItemArgs_two_slots_returns :
  EnvironmentSubs.getItemArgs Sample.twoSlotItem
  = Return {| EnvironmentSubs.label := Some (Some [StringNode "x"]);
              EnvironmentSubs.body := [StringNode "a"] |}.
Proof. reflexivity. Qed.

Lemma getItemArgs_selects_signature_witness :
  ∃ namedArgs,
    EnvironmentSubs.getItemArgs Sample.twoSlotItem = Return namedArgs
    ∧ EnvironmentSubs.body namedArgs = [StringNode "a"].
Proof.
  destruct (getItemArgs_selects_signature_without_rejecting Sample.twoSlotItem)
    as [_ Hret].
  destruct (Hret _ eq_refl ltac:(discriminate))
    as (slot & bodyArg & _ & Hlast & Hget).
  exists {| EnvironmentSubs.label := Some (argValue slot);
            EnvironmentSubs.body := arg_content bodyArg |}.
  split; [exact Hget|].
  injection Hlast as <-. reflexivity.
Defined.

(** * Facts about lists *)

Section ListFacts.
Import EnvironmentSubs ListSpec.

Variable VisitInfo : Type.
Variable wrapPars : list Node → Wrapped.

Local Abbreviation itemToHtml := (EnvironmentSubs.itemToHtml wrapPars).
Local Abbreviation itemsFlatMap := (EnvironmentSubs.itemsFlatMap wrapPars).
Local Abbreviation enumerateFactory :=
  (EnvironmentSubs.enumerateFactory VisitInfo wrapPars).
Local Abbreviation liOf := (ListSpec.liOf wrapPars).
Local Abbreviation itemAfter := (ListSpec.itemAfter wrapPars).

(** The nodes of the content as the list rule leaves them. *)
Local Abbreviation contentAfter content :=
  (map (λ node, if match_macro node (Some "item") then itemAfter node else node)
       content).

Lemma hasSingleArgument_length (m : Macro) (args : list Argument) :
  macro_args m = Some args →
  hasSingleArgument (MacroNode m) = bool_decide (length args = 1).
Proof.
  intros Hargs. unfold hasSingleArgument. rewrite Hargs. cbn.
  apply bool_decide_ext. split; [intros [= H]; exact H | intros ->; reflexivity].
Qed.

Lemma itemToHtml_closed_form (node : Node) (flag : bool) :
  (∀ m, node = MacroNode m → macro_args m ≠ Some []) →
  itemToHtml node flag
  = Return (liOf node, flag || carriesLabel node, itemAfter node).
Proof.
  intros Hwf.
  destruct node as [m| | | | | | |];
    try (cbn; rewrite orb_false_r; reflexivity).
  unfold EnvironmentSubs.itemToHtml, ListSpec.liOf, ListSpec.itemAfter,
    carriesLabel.
  destruct (macro_args m) as [args|] eqn:Hargs.
  - assert (args ≠ []) as Hne.
    { intros ->. exact (Hwf m eq_refl Hargs). }
    rewrite (hasSingleArgument_length m args Hargs).
    unfold itemArgsOf.
    destruct (getItemArgs_returns m args Hargs Hne)
      as (slot & bodyArg & _ & _ & ->).
    cbn. destruct (argValue slot); cbn.
    + rewrite orb_true_r. reflexivity.
    + rewrite orb_false_r. reflexivity.
  - unfold itemArgsOf, getItemArgs. rewrite Hargs.
    rewrite orb_false_r. reflexivity.
Qed.

Lemma itemsFlatMap_closed_form (items : list Node) :
  ∀ flag,
    (∀ m, MacroNode m ∈ items → macro_args m ≠ Some []) →
    itemsFlatMap items flag
    = Return (flat_map liOf items, flag || existsb carriesLabel items,
              map itemAfter items).
Proof.
  induction items as [|node rest IH]; intros flag Hwf.
  - cbn. rewrite orb_false_r. reflexivity.
  - cbn [EnvironmentSubs.itemsFlatMap].
    rewrite itemToHtml_closed_form.
    + cbn [bindExc fst snd]. rewrite IH.
      * cbn. rewrite orb_assoc. reflexivity.
      * intros m Hm. apply Hwf. right. exact Hm.
    + intros m ->. apply Hwf. left.
Qed.

Lemma items_of_env (env : Environment) (node : Node) :
  node ∈ List.filter (λ node, match_macro node (Some "item")) (env_content env)
  ↔ node ∈ env_content env
    ∧ ∃ m, node = MacroNode m ∧ macro_content m = "item".
Proof.
  rewrite !list_elem_of_In, filter_In.
  split; intros [Hin Hm]; (split; [exact Hin|]).
  - destruct node as [m| | | | | | |]; try discriminate Hm.
    exists m. split; [reflexivity|]. cbn in Hm.
    apply bool_decide_eq_true_1 in Hm. exact Hm.
  - destruct Hm as (m & -> & Hitem). cbn.
    apply bool_decide_eq_true_2. exact Hitem.
Qed.

(** Writing the processed items back at the places they were taken from. *)
Lemma writeBack_filtered (f : Node → Node) (content : list Node) :
  writeBack content
    (map f (List.filter (λ node, match_macro node (Some "item")) content))
  = map (λ node, if match_macro node (Some "item") then f node else node) content.
Proof.
  induction content as [|node rest IH]; [reflexivity|].
  cbn [List.filter writeBack map].
  destruct (match_macro node (Some "item")); cbn [map]; rewrite IH; reflexivity.
Qed.

Lemma enumerateFactory_closed_form parentTag env info file :
  bodiesAttached (env_content env) →
  let items :=
    List.filter (λ node, match_macro node (Some "item")) (env_content env) in
  enumerateFactory parentTag env info file
  = Return {| replacement :=
                One (htmlLike (if existsb carriesLabel items then "dl" else parentTag)
                       (flat_map liOf items) None);
              env_after := set_env_content env (contentAfter (env_content env));
              file_after := file |}.
Proof.
  intros Hwf items. unfold EnvironmentSubs.enumerateFactory.
  fold items. rewrite itemsFlatMap_closed_form.
  - cbn [bindExc fst snd]. unfold items. rewrite writeBack_filtered.
    reflexivity.
  - intros m Hm. apply items_of_env in Hm as (Hin & m' & Heq & Hitem).
    injection Heq as <-. exact (Hwf m Hin Hitem).
Qed.

(** C2 (as amended).  For every enumerate/itemize environment whose items
    have their bodies attached, the rule returns one list element.  If no
    item carries a label, its tag is the caller-supplied default; if at
    least one item carries a label that is not null, its tag is "dl".  The
    content is one list-item element per item that has arguments, in
    order: an item that carries a label gets a title element in front of
    its paragraph-grouped body, an item that carries none gets its
    paragraph-grouped body alone.  The title holds the label (for an item
    with a single argument, where label and body are one array, what the
    paragraph grouping left in it). *)
Theorem enumerateFactory_tag_and_titles parentTag env info file :
  bodiesAttached (env_content env) →
  let items :=
    List.filter (λ node, match_macro node (Some "item")) (env_content env) in
  ∃ tag env',
    enumerateFactory parentTag env info file
    = Return {| replacement := One (htmlLike tag (flat_map liOf items) None);
                env_after := env';
                file_after := file |}
    ∧ ((∀ node, node ∈ items → carriesLabel node = false) → tag = parentTag)
    ∧ ((∃ node, node ∈ items ∧ carriesLabel node = true) → tag = "dl")
    ∧ (∀ node namedArgs, node ∈ items → itemArgsOf node = Some namedArgs →
         liOf node
         = [htmlLike "li"
              (match label namedArgs with
               | Some (Some lbl) =>
                   htmlLike "title"
                     (if hasSingleArgument node
                      then trimmed (wrapPars (body namedArgs)) else lbl) None
                   :: paragraphs (wrapPars (body namedArgs))
               | _ => paragraphs (wrapPars (body namedArgs))
               end) None]).
Proof.
  intros Hwf items.
  exists (if existsb carriesLabel items then "dl" else parentTag).
  eexists.
  split; [exact (enumerateFactory_closed_form parentTag env info file Hwf)|].
  split; [|split].
  - intros Hnone.
    destruct (existsb carriesLabel items) eqn:Hex; [|reflexivity].
    apply existsb_exists in Hex as (node & Hin & Hlabel).
    apply list_elem_of_In in Hin. rewrite (Hnone node Hin) in Hlabel.
    discriminate.
  - intros (node & Hin & Hlabel).
    assert (existsb carriesLabel items = true) as ->; [|reflexivity].
    apply existsb_exists. exists node. split; [|exact Hlabel].
    apply list_elem_of_In. exact Hin.
  - intros node namedArgs _ Hnamed. unfold ListSpec.liOf.
    rewrite Hnamed. reflexivity.
Qed.

(** C10 (as amended).  A list environment whose items have their bodies
    attached and that contains an item whose label slot was supplied but
    is empty (an open mark and no content, in the one-slot form or in the
    middle slot of the three-slot form) is converted to a "dl" element,
    and that item's list-item element starts with a title element whose
    content is empty, followed by the paragraph-grouped body: supplied but
    empty counts as a label. *)
Theorem enumerateFactory_empty_label_is_label
    parentTag env info file (m : Macro) (lbl bodyArg : Argument) :
  bodiesAttached (env_content env) →
  MacroNode m ∈ env_content env →
  macro_content m = "item" →
  (macro_args m = Some [lbl; bodyArg]
   ∨ ∃ a c, macro_args m = Some [a; lbl; c; bodyArg]) →
  arg_openMark lbl ≠ EmptyString →
  arg_content lbl = [] →
  ∃ lis env',
    enumerateFactory parentTag env info file
    = Return {| replacement := One (htmlLike "dl" lis None);
                env_after := env';
                file_after := file |}
    ∧ htmlLike "li"
        (htmlLike "title" [] None :: paragraphs (wrapPars (arg_content bodyArg)))
        None
      ∈ lis.
Proof.
  intros Hwf Hin Hitem Hargs Hopen Hempty.
  set (items :=
    List.filter (λ node, match_macro node (Some "item")) (env_content env)).
  assert (MacroNode m ∈ items) as Hmem.
  { apply items_of_env. split; [exact Hin|].
    exists m. split; [reflexivity|exact Hitem]. }
  assert (getItemArgs m
          = Return {| label := Some (Some []); body := arg_content bodyArg |})
    as Hget.
  { rewrite (getItemArgs_label_slot m lbl bodyArg Hargs Hempty).
    rewrite (bool_decide_eq_false_2 _ Hopen). reflexivity. }
  assert (hasSingleArgument (MacroNode m) = false) as Hsingle.
  { destruct Hargs as [Hargs | (a & c & Hargs)];
      rewrite (hasSingleArgument_length m _ Hargs); reflexivity. }
  exists (flat_map liOf items). eexists. split.
  - rewrite (enumerateFactory_closed_form parentTag env info file Hwf).
    fold items.
    assert (existsb carriesLabel items = true) as ->; [|reflexivity].
    apply existsb_exists. exists (MacroNode m). split.
    + apply list_elem_of_In. exact Hmem.
    + unfold carriesLabel, itemArgsOf. rewrite Hget. reflexivity.
  - apply list_elem_of_In, in_flat_map. exists (MacroNode m). split.
    + apply list_elem_of_In. exact Hmem.
    + unfold ListSpec.liOf. rewrite Hsingle. unfold itemArgsOf.
      rewrite Hget. left. reflexivity.
Qed.

End ListFacts.

(** * Facts about objects built from entries *)

Section RegistryFacts.
Import EnvironmentSubs.
Context {V : Type}.

Lemma fromEntries_snoc (entries : list (string * V)) (k : string) (v : V) :
  fromEntries (entries ++ [(k, v)]) = <[k := v]> (fromEntries entries).
Proof. unfold fromEntries. rewrite foldl_snoc. reflexivity. Qed.

Lemma fromEntries_lookup_None (entries : list (string * V)) (k : string) :
  k ∉ entries.*1 → fromEntries entries !! k = None.
Proof.
  induction entries as [|[k' v'] entries IH] using rev_ind; intros Hk.
  - apply lookup_empty.
  - rewrite fmap_app, not_elem_of_app in Hk. destruct Hk as [Hk Hk'].
    rewrite fromEntries_snoc, lookup_insert_ne; [exact (IH Hk)|].
    intros ->. apply Hk'. left.
Qed.

(** With pairwise distinct keys every entry is found under its key. *)
Lemma fromEntries_lookup_NoDup (entries : list (string * V)) (k : string) (v : V) :
  NoDup entries.*1 → (k, v) ∈ entries → fromEntries entries !! k = Some v.
Proof.
  induction entries as [|[k' v'] entries IH] using rev_ind; intros Hnd Hin.
  - apply elem_of_nil in Hin. contradiction.
  - rewrite fmap_app in Hnd. apply NoDup_app in Hnd as (Hnd & Hfresh & _).
    rewrite fromEntries_snoc.
    apply elem_of_app in Hin as [Hin | Hin].
    + rewrite lookup_insert_ne; [exact (IH Hnd Hin)|].
      intros <-. apply (Hfresh k').
      * apply (list_elem_of_fmap_2 fst _ (k', v)). exact Hin.
      * left.
    + apply list_elem_of_singleton in Hin. injection Hin as -> ->.
      apply lookup_insert_eq.
Qed.

(** A spread written last wins over the properties listed before it. *)
Lemma objectWithSpread_lookup (listed : list (string * V))
    (spread : gmap string V) (k : string) :
  objectWithSpread listed spread !! k
  = match spread !! k with
    | Some v => Some v
    | None => fromEntries listed !! k
    end.
Proof.
  unfold objectWithSpread. rewrite lookup_union.
  destruct (spread !! k), (fromEntries listed !! k); reflexivity.
Qed.

End RegistryFacts.

(** * Facts about blocks *)

Section BlockFacts.
Import EnvironmentSubs BlockSpec.

Variable VisitInfo : Type.
Variable wrapPars : list Node → Wrapped.
Variable makeWarningMessage : Node → string → string → VFileMessage.

Local Abbreviation Rule := (EnvironmentSubs.Rule VisitInfo).
Local Abbreviation envFactory :=
  (EnvironmentSubs.envFactory VisitInfo wrapPars makeWarningMessage).
Local Abbreviation removeEnv :=
  (EnvironmentSubs.removeEnv VisitInfo makeWarningMessage).
Local Abbreviation composedContent := (BlockSpec.composedContent wrapPars).
Local Abbreviation envAfterWrap := (BlockSpec.envAfterWrap wrapPars).

(** What [envFactory]'s rule returns and what it leaves behind. *)
Lemma envFactory_run tag options env (info : VisitInfo) file :
  envFactory tag options env info file
  = Return
      {| replacement :=
           One (HtmlLike tag (composedContent options env) (attachedAttributes env));
         env_after :=
           if default true (wrapContentInPars options) then envAfterWrap env
           else
             match suppliedTitle env with
             | Some title =>
                 if writesThrough options env
                 then set_env_content env
                        (htmlLike "title" title None :: env_content env)
                 else env
             | None => env
             end;
         file_after :=
           match file with
           | Some f =>
               let text := default EmptyString (warningMessage options) in
               if bool_decide (text = EmptyString) then Some f
               else
                 let message :=
                   makeWarningMessage (EnvironmentNode env) text "env-subs" in
                 Some (VFile_message f message (place message) (source message))
           | None => None
           end |}.
Proof.
  unfold EnvironmentSubs.envFactory, BlockSpec.composedContent,
    BlockSpec.envAfterWrap, writesThrough, suppliedTitle, attachedAttributes,
    htmlLike.
  destruct env as [name args content info'].
  cbn [env_args env_content env_renderInfo set_env_content].
  assert (∀ o : option Attributes,
            match o with Some extra => extra ∪ ∅ | None => ∅ end = default ∅ o)
    as Hattrs.
  { intros [extra|]; [apply map_union_empty|reflexivity]. }
  destruct (wrapContentInPars options) as [[|]|];
    destruct (requiresStatementTag options) as [[|]|];
    destruct (extractTitleFromArgs options) as [[|]|];
    cbn;
    destruct (getArgsContent args !! 0) as [[title|]|];
    cbn; rewrite ?Hattrs; reflexivity.
Qed.

(** C3 (as amended).  Every Rule produced by [envFactory], applied to any
    environment node, returns and never throws; it returns exactly one
    replacement node, a block element with the given tag that carries the
    composed content and the attached attributes; it emits at most one
    diagnostic.  Of the environment node it touches the content array
    only: with paragraph wrapping on, that array is handed to [wrapPars]
    as it is and holds afterwards what [wrapPars] left in it; with
    paragraph wrapping off the node stays as it was whenever the statement
    wrapper is on, or title extraction is off, or no title was supplied. *)
Theorem envFactory_returns_one_block tag options env (info : VisitInfo) file :
  ∃ env' file',
    envFactory tag options env info file
    = Return {| replacement :=
                  One (htmlLike tag (composedContent options env)
                         (Some (attachedAttributes env)));
                env_after := env';
                file_after := file' |}
    ∧ (file' = file
       ∨ ∃ f message p o,
           file = Some f ∧ file' = Some (VFile_message f message p o)
           ∧ length (messages (VFile_message f message p o))
             = S (length (messages f)))
    ∧ (default true (wrapContentInPars options) = true →
       env' = set_env_content env (trimmed (wrapPars (env_content env))))
    ∧ (default true (wrapContentInPars options) = false →
       writesThrough options env = false → env' = env).
Proof.
  rewrite envFactory_run. eexists _, _. split; [reflexivity|]. split; [|split].
  - destruct file as [f|]; [|left; reflexivity].
    cbv zeta. case_bool_decide; [left; reflexivity|].
    right. eexists f, _, _, _. split; [reflexivity|]. split; [reflexivity|].
    cbn. rewrite length_app. cbn. lia.
  - intros ->. reflexivity.
  - intros -> Hpure. rewrite Hpure. destruct (suppliedTitle env); reflexivity.
Qed.

Lemma removeEnvWarning_names (name : string) :
  ∃ before after, removeEnvWarning name = before +:+ name +:+ after.
Proof. unfold removeEnvWarning. eauto. Qed.

(** C5 (as amended).  For every environment node the environment-removal
    Rule returns the environment's content sequence unmodified (so the
    number of nodes is the original content length), leaves the
    environment as it was, and, when it is given a file, records exactly
    one diagnostic on it, a warning whose text names the removed
    environment; without a file it records nothing. *)
Theorem removeEnv_keeps_content_and_warns env (info : VisitInfo) file :
  ∃ file',
    removeEnv env info file
    = Return {| replacement := Many (env_content env);
                env_after := env;
                file_after := file' |}
    ∧ match file with
      | Some f =>
          file' = Some {| messages :=
                    messages f
                    ++ [ {| diag_reason :=
                              makeWarningMessage (EnvironmentNode env)
                                (removeEnvWarning (env_env env)) "environment-subs";
                            diag_place := None; diag_origin := None |} ] |}
          ∧ ∃ before after,
              removeEnvWarning (env_env env) = before +:+ env_env env +:+ after
      | None => file' = None
      end.
Proof.
  unfold EnvironmentSubs.removeEnv. eexists. split; [reflexivity|].
  destruct file as [f|]; [|reflexivity].
  split; [reflexivity|]. apply removeEnvWarning_names.
Qed.

End BlockFacts.

(** * Facts about the registry *)

(** Settles a decidable statement about the tables by evaluating its decision. *)
Ltac by_computation := apply (bool_decide_unpack _); vm_compute; exact I.

Lemma aliasNames_NoDup : NoDup (BlockSpec.aliasNames EnvironmentSubs.envAliases).
Proof. by_computation. Qed.

Lemma alias_differs_from_canonical_name :
  Forall (λ entry, entry.1 ∉ EnvironmentSubs.aliases entry.2)
         EnvironmentSubs.envAliases.
Proof. by_computation. Qed.

Lemma explicit_names_not_generated :
  Forall (λ name, name ∉ BlockSpec.aliasNames EnvironmentSubs.envAliases)
         ["enumerate"; "itemize"; "tabular"; "center"; "quote"; "figure"; "table"].
Proof. by_computation. Qed.

Section RegistryRuleFacts.
Import EnvironmentSubs BlockSpec.

Variable VisitInfo : Type.
Variable wrapPars : list Node → Wrapped.
Variable makeWarningMessage : Node → string → string → VFileMessage.
Variable createTableFromTabular : EnvironmentSubs.Rule VisitInfo.

Local Abbreviation Rule := (EnvironmentSubs.Rule VisitInfo).
Local Abbreviation enumerateFactory :=
  (EnvironmentSubs.enumerateFactory VisitInfo wrapPars).
Local Abbreviation envFactory :=
  (EnvironmentSubs.envFactory VisitInfo wrapPars makeWarningMessage).
Local Abbreviation expandAliases :=
  (EnvironmentSubs.expandAliases VisitInfo wrapPars makeWarningMessage).
Local Abbreviation genEnvironmentReplacementsFrom :=
  (EnvironmentSubs.genEnvironmentReplacementsFrom
     VisitInfo wrapPars makeWarningMessage).
Local Abbreviation genEnvironmentReplacements :=
  (EnvironmentSubs.genEnvironmentReplacements
     VisitInfo wrapPars makeWarningMessage).
Local Abbreviation explicitReplacements :=
  (EnvironmentSubs.explicitReplacements
     VisitInfo wrapPars makeWarningMessage createTableFromTabular).
Local Abbreviation environmentReplacements :=
  (EnvironmentSubs.environmentReplacements
     VisitInfo wrapPars makeWarningMessage createTableFromTabular).
Local Abbreviation composedContent := (BlockSpec.composedContent wrapPars).

Lemma expandAliases_names (table : list (string * AliasSpec)) :
  (expandAliases table).*1 = aliasNames table.
Proof.
  induction table as [|[canon spec] table IH]; [reflexivity|].
  unfold EnvironmentSubs.expandAliases, aliasNames in *. cbn [flat_map].
  rewrite fmap_app, IH. cbn. do 2 f_equal.
  induction (aliases spec) as [|name names IHn]; [reflexivity|].
  cbn. f_equal. exact IHn.
Qed.

Lemma expandAliases_entry (table : list (string * AliasSpec)) canon spec name :
  (canon, spec) ∈ table →
  name ∈ canon :: aliases spec →
  (name, envFactory canon (aliasOptions spec)) ∈ expandAliases table.
Proof.
  intros Hentry Hname. unfold EnvironmentSubs.expandAliases.
  apply list_elem_of_In, in_flat_map. exists (canon, spec).
  split; [apply list_elem_of_In; exact Hentry|].
  apply elem_of_cons in Hname as [-> | Hname]; [left; reflexivity|].
  right. apply list_elem_of_In in Hname.
  exact (in_map (λ name, (name, envFactory canon (aliasOptions spec))) _ _ Hname).
Qed.

Lemma generated_lookup canon spec name :
  (canon, spec) ∈ envAliases →
  name ∈ canon :: aliases spec →
  genEnvironmentReplacements !! name = Some (envFactory canon (aliasOptions spec)).
Proof.
  intros Hentry Hname.
  unfold EnvironmentSubs.genEnvironmentReplacements,
    EnvironmentSubs.genEnvironmentReplacementsFrom.
  apply fromEntries_lookup_NoDup.
  - rewrite expandAliases_names. exact aliasNames_NoDup.
  - exact (expandAliases_entry envAliases canon spec name Hentry Hname).
Qed.

Lemma registry_lookup_generated canon spec name :
  (canon, spec) ∈ envAliases →
  name ∈ canon :: aliases spec →
  environmentReplacements !! name = Some (envFactory canon (aliasOptions spec)).
Proof.
  intros Hentry Hname. unfold EnvironmentSubs.environmentReplacements.
  rewrite objectWithSpread_lookup.
  fold genEnvironmentReplacements.
  rewrite (generated_lookup canon spec name Hentry Hname). reflexivity.
Qed.

Lemma generated_lookup_explicit_name name :
  name ∈ ["enumerate"; "itemize"; "tabular"; "center"; "quote"; "figure"; "table"] →
  genEnvironmentReplacements !! name = None.
Proof.
  intros Hname.
  unfold EnvironmentSubs.genEnvironmentReplacements,
    EnvironmentSubs.genEnvironmentReplacementsFrom.
  apply fromEntries_lookup_None. rewrite expandAliases_names.
  exact (proj1 (Forall_forall _ _) explicit_names_not_generated name Hname).
Qed.

(** C1.  For every canonical environment name of the alias table and every
    selector that is this name or one of its aliases, the generated
    registry (and the assembled registry) holds a Rule under that
    selector; applied to an environment it returns exactly one block
    element whose tag is the canonical name, and an alias is never the
    canonical name it stands for. *)
Theorem alias_rule_yields_canonical_tag canon spec name env (info : VisitInfo) file :
  (canon, spec) ∈ envAliases →
  name ∈ canon :: aliases spec →
  ∃ (rule : Rule) out block,
    genEnvironmentReplacements !! name = Some rule
    ∧ environmentReplacements !! name = Some rule
    ∧ rule env info file = Return out
    ∧ replacement out = One block
    ∧ tagOf block = Some canon
    ∧ (name ∈ aliases spec → tagOf block ≠ Some name).
Proof.
  intros Hentry Hname.
  exists (envFactory canon (aliasOptions spec)).
  eexists _, _.
  split; [exact (generated_lookup canon spec name Hentry Hname)|].
  split; [exact (registry_lookup_generated canon spec name Hentry Hname)|].
  split; [apply envFactory_run|].
  split; [reflexivity|]. split; [reflexivity|].
  intros Halias [= ->].
  exact (proj1 (Forall_forall _ _) alias_differs_from_canonical_name
           (name, spec) Hentry Halias).
Qed.

(** C4.  For an environment whose selector is the name or an alias of a
    block that requires a statement (such as "thm" for "theorem"), with a
    supplied optional title argument, the registry's Rule returns a block
    tagged with the canonical name whose content is, in order, a title
    element holding the argument's content and a statement element
    wrapping the paragraph-grouped body. *)
Theorem statement_block_title_then_statement
    canon spec env (info : VisitInfo) file title :
  (canon, spec) ∈ envAliases →
  requiresStatement spec = true →
  env_env env ∈ canon :: aliases spec →
  getArgsContent (env_args env) !! 0 = Some (Some title) →
  ∃ (rule : Rule) env',
    environmentReplacements !! env_env env = Some rule
    ∧ rule env info file
      = Return {| replacement :=
                    One (htmlLike canon
                           [ htmlLike "title" title None;
                             htmlLike "statement"
                               (paragraphs (wrapPars (env_content env))) None ]
                           (Some (attachedAttributes env)));
                  env_after := env';
                  file_after := file |}.
Proof.
  intros Hentry Hstmt Hname Htitle.
  exists (envFactory canon (aliasOptions spec)). eexists.
  split; [exact (registry_lookup_generated canon spec _ Hentry Hname)|].
  rewrite envFactory_run.
  unfold BlockSpec.composedContent, writesThrough, suppliedTitle, aliasOptions.
  rewrite Htitle, Hstmt. cbn. destruct file; reflexivity.
Qed.

Lemma registry_lookup_explicit name (rule : Rule) :
  (name, rule) ∈ explicitReplacements →
  environmentReplacements !! name = Some rule.
Proof.
  intros Hin. unfold EnvironmentSubs.environmentReplacements.
  rewrite objectWithSpread_lookup. fold genEnvironmentReplacements.
  rewrite generated_lookup_explicit_name.
  - apply fromEntries_lookup_NoDup; [by_computation | exact Hin].
  - exact (list_elem_of_fmap_2 fst _ (name, rule) Hin).
Qed.


End RegistryRuleFacts.

(** * Facts about the systeme rule *)

Section SystemeFacts.
Import MathjaxSubs.

Variable getArgsContent : Macro → Exc (list (option (list Node))).
Variable systemeContentsToArray : list Node → SystemeOptions → Exc Node.

Local Abbreviation systemeTry :=
  (MathjaxSubs.systemeTry getArgsContent systemeContentsToArray).
Local Abbreviation systeme :=
  (MathjaxSubs.systeme getArgsContent systemeContentsToArray).

(** The call the rule makes to the array conversion, given the arguments. *)
Local Abbreviation converted args :=
  (systemeContentsToArray (default [] (mjoin (args !! 3)))
     {| properSpacing := false; whitelistedVariables := mjoin (args !! 1) |}).

Lemma systemeTry_converted node args ret :
  getArgsContent node = Return args →
  converted args = Return ret →
  systemeTry node
  = match macro_renderInfo node ≫= sysdelims with
    | Some delims =>
        Return ([LEFT] ++ default [] (mjoin (delims !! 0)) ++ [ret] ++ [RIGHT]
                ++ default [] (mjoin (delims !! 1)))
    | None => Return [LEFT; DEFAULT_LEFT_DELIM; ret; RIGHT; DEFAULT_RIGHT_DELIM]
    end.
Proof.
  intros Hargs Hret. unfold MathjaxSubs.systemeTry.
  rewrite Hargs. cbn [bindExc]. rewrite Hret. reflexivity.
Qed.

(** C6 (as amended).  For a systeme macro whose arguments were extracted
    and whose equations were converted to an array [ret] without a throw:
    with no sysdelims render hint the output is the macro \left, the macro
    whose name is the opening brace, [ret], the macro \right and the
    string made of a period; with a render hint that carries two resolved
    delimiter sequences the output is \left, the first sequence, [ret],
    \right, the second sequence, and the brace macro or the period string
    occurs in it only if it occurs in one of the two sequences or is [ret]
    itself. *)
Theorem systeme_wraps_with_delimiters node args ret :
  getArgsContent node = Return args →
  converted args = Return ret →
  (macro_renderInfo node ≫= sysdelims = None →
     systeme node
     = Many [ MacroNode (mkMacro "left" None None);
              MacroNode (mkMacro "{" None None);
              ret;
              MacroNode (mkMacro "right" None None);
              StringNode "." ])
  ∧ (∀ front back rest,
       macro_renderInfo node ≫= sysdelims = Some (Some front :: Some back :: rest) →
       systeme node
       = Many ([MacroNode (mkMacro "left" None None)] ++ front ++ [ret]
               ++ [MacroNode (mkMacro "right" None None)] ++ back)
       ∧ ∀ token,
           token ∈ [MacroNode (mkMacro "{" None None); StringNode "."] →
           token ∈ [MacroNode (mkMacro "left" None None)] ++ front ++ [ret]
                   ++ [MacroNode (mkMacro "right" None None)] ++ back →
           token ∈ front ∨ token ∈ back ∨ token = ret).
Proof.
  intros Hargs Hret. unfold MathjaxSubs.systeme.
  rewrite (systemeTry_converted node args ret Hargs Hret). split.
  - intros ->. reflexivity.
  - intros front back rest ->. split; [reflexivity|].
    intros token Hdefault Hin.
    rewrite !elem_of_app, !list_elem_of_singleton in Hin.
    destruct Hin as [-> | [Hin | [-> | [-> | Hin]]]]; auto.
    + exfalso. apply elem_of_cons in Hdefault as [Heq | Hdefault];
        [discriminate Heq|].
      apply list_elem_of_singleton in Hdefault. discriminate Hdefault.
    + exfalso. apply elem_of_cons in Hdefault as [Heq | Hdefault];
        [discriminate Heq|].
      apply list_elem_of_singleton in Hdefault. discriminate Hdefault.
Qed.

(** C7.  For every node, if argument extraction throws, or the array
    conversion throws, or the body of the rule throws at any step, the
    systeme rule returns the original node and nothing is thrown further;
    the sysdelim rule always rewrites to the empty node sequence. *)
Theorem systeme_failure_returns_node node :
  (∀ e, getArgsContent node = Throw e → systeme node = One (MacroNode node))
  ∧ (∀ args e,
       getArgsContent node = Return args →
       converted args = Throw e →
       systeme node = One (MacroNode node))
  ∧ (∀ e, systemeTry node = Throw e → systeme node = One (MacroNode node))
  ∧ sysdelim node = Many []
  ∧ mathjaxSpecificMacroReplacements getArgsContent systemeContentsToArray
      !! "sysdelim" = Some sysdelim
  ∧ mathjaxSpecificMacroReplacements getArgsContent systemeContentsToArray
      !! "systeme" = Some systeme.
Proof.
  unfold MathjaxSubs.systeme, MathjaxSubs.systemeTry.
  split; [intros e ->; reflexivity|].
  split; [intros args e -> Hconv; cbn [bindExc]; rewrite Hconv; reflexivity|].
  split; [intros e ->; reflexivity|].
  split; [reflexivity|].
  split; reflexivity.
Qed.

End SystemeFacts.

(** * The rules on sample documents *)

Section SampleRuns.
Import Sample.

Ltac in_list := repeat first [left; reflexivity | right].

Ltac bodies_attached :=
  intros m Hin _ Hargs; cbn in Hin;
  repeat match goal with
         | H : _ ∈ _ :: _ |- _ => apply elem_of_cons in H as [H | H]
         | H : _ ∈ [] |- _ => apply elem_of_nil in H; contradiction
         end;
  try discriminate;
  match goal with
  | H : MacroNode _ = _ |- _ => injection H as ->; discriminate Hargs
  end.

Lemma alias_rule_yields_canonical_tag_witness :
  ∃ out block,
    runRule environmentReplacements thmPythagoras None = Some (Return out)
    ∧ replacement out = One block
    ∧ tagOf block = Some "theorem".
Proof.
  destruct (alias_rule_yields_canonical_tag
              VisitInfo wrapPars makeWarningMessage createTableFromTabular
              "theorem"
              (EnvironmentSubs.mkAliasSpec true
                 ["thm"; "theo"; "theor"; "thmss"; "thrm"])
              "thm" thmPythagoras tt None
              ltac:(in_list) ltac:(in_list))
    as (rule & out & block & _ & Hregistry & Hrun & Hone & Htag & _).
  exists out, block. unfold runRule, environmentReplacements. cbv zeta.
  change (env_env thmPythagoras) with "thm". rewrite Hregistry.
  rewrite Hrun. auto.
Defined.

Lemma enumerateFactory_tag_and_titles_witness :
  (∃ lis env',
     enumerateFactory "ul" plainList tt None
     = Return {| replacement := One (htmlLike "ul" lis None);
                 env_after := env'; file_after := None |})
  ∧ (∃ lis env',
       enumerateFactory "ul" mixedList tt None
       = Return {| replacement := One (htmlLike "dl" lis None);
                   env_after := env'; file_after := None |}).
Proof.
  split.
  - assert (ListSpec.bodiesAttached (env_content plainList)) as Hwf
      by bodies_attached.
    destruct (enumerateFactory_tag_and_titles
                VisitInfo wrapPars "ul" plainList tt None Hwf)
      as (tag & env' & Hrun & Hdefault & _).
    rewrite Hdefault in Hrun.
    + eexists _, _. exact Hrun.
    + intros node Hin. cbn in Hin.
      repeat (apply elem_of_cons in Hin as [-> | Hin]; [reflexivity|]).
      apply elem_of_nil in Hin. contradiction.
  - assert (ListSpec.bodiesAttached (env_content mixedList)) as Hwf
      by bodies_attached.
    destruct (enumerateFactory_tag_and_titles
                VisitInfo wrapPars "ul" mixedList tt None Hwf)
      as (tag & env' & Hrun & _ & Hdl & _).
    rewrite Hdl in Hrun.
    + eexists _, _. exact Hrun.
    + eexists. split; [left|reflexivity].
Defined.

(** A list with a labelled and an unlabelled item: the list is a
    description list, and the unlabelled item's element holds its
    paragraph only, with no title in front. *)
Lemma enumerate_unlabelled_item_gets_no_title :
  enumerateFactory "ul" mixedList tt None
  = Return
      {| replacement :=
           One (htmlLike "dl"
                  [ htmlLike "li"
                      [ htmlLike "title" [StringNode "Key"] None;
                        htmlLike "p" [StringNode "a"] None ] None;
                    htmlLike "li" [ htmlLike "p" [StringNode "b"] None ] None ]
                  None);
         env_after := mixedList;
         file_after := None |}
  ∧ ListSpec.carriesLabel (item [optArg [StringNode "Key"]; bodyArg [StringNode "a"]])
    = true
  ∧ tagOf <$> contentOf (htmlLike "li" [ htmlLike "p" [StringNode "b"] None ] None)
    = [Some "p"].
Proof. repeat split. Qed.

Lemma enumerateFactory_empty_label_witness :
  ∃ lis env',
    enumerateFactory "ul" emptyLabelList tt None
    = Return {| replacement := One (htmlLike "dl" lis None);
                env_after := env'; file_after := None |}
    ∧ htmlLike "li"
        (htmlLike "title" [] None
         :: EnvironmentSubs.paragraphs (wrapPars [StringNode "a"])) None
      ∈ lis.
Proof.
  assert (ListSpec.bodiesAttached (env_content emptyLabelList)) as Hwf
    by bodies_attached.
  exact (enumerateFactory_empty_label_is_label
           VisitInfo wrapPars "ul" emptyLabelList tt None
           (mkMacro "item" (Some [optArg []; bodyArg [StringNode "a"]]) None)
           (optArg []) (bodyArg [StringNode "a"])
           Hwf ltac:(in_list) eq_refl (or_introl eq_refl)
           ltac:(discriminate) eq_refl).
Defined.

(** A list that holds an item with an empty label next to an item whose
    argument array is empty is not converted at all: the rule throws. *)
Lemma enumerate_empty_label_beside_bare_item_throws :
  enumerateFactory "ul" emptyLabelAndBareItem tt None
  = Throw (TypeError "Cannot read properties of undefined (reading 'content')").
Proof. reflexivity. Qed.

(** The quote rule of the registry, run on a quote whose text has blanks
    around it: the environment node comes back with its content trimmed. *)
Lemma quote_rule_trims_env_content :
  runRule environmentReplacements quoteSpaced None
  = Some (Return
      {| replacement :=
           One (htmlLike "blockquote" [ htmlLike "p" [StringNode "q"] None ]
                  (Some ∅));
         env_after := mkEnvironment "quote" None [StringNode "q"] None;
         file_after := None |})
  ∧ mkEnvironment "quote" None [StringNode "q"] None ≠ quoteSpaced.
Proof. split; [vm_compute; reflexivity | discriminate]. Qed.

(** Called without a file, the removal rule records no diagnostic. *)
Lemma removeEnv_without_file_records_nothing :
  removeEnv figureWithArg tt None
  = Return {| replacement := Many [StringNode "picture"];
              env_after := figureWithArg;
              file_after := None |}.
Proof. reflexivity. Qed.

Lemma statement_block_witness :
  ∃ env',
    runRule environmentReplacements thmPythagoras (Some emptyFile)
    = Some (Return
        {| replacement :=
             One (htmlLike "theorem"
                    [ htmlLike "title" [StringNode "Pythagoras"] None;
                      htmlLike "statement"
                        (EnvironmentSubs.paragraphs
                           (wrapPars [StringNode "a"; Whitespace; StringNode "b"]))
                        None ]
                    (Some ∅));
           env_after := env';
           file_after := Some emptyFile |}).
Proof.
  destruct (statement_block_title_then_statement
              VisitInfo wrapPars makeWarningMessage createTableFromTabular
              "theorem"
              (EnvironmentSubs.mkAliasSpec true
                 ["thm"; "theo"; "theor"; "thmss"; "thrm"])
              thmPythagoras tt (Some emptyFile) [StringNode "Pythagoras"]
              ltac:(in_list) eq_refl ltac:(in_list) eq_refl)
    as (rule & env' & Hregistry & Hrun).
  exists env'.
  unfold runRule, environmentReplacements. cbv zeta. rewrite Hregistry.
  rewrite Hrun. reflexivity.
Defined.


Lemma systeme_wraps_with_delimiters_witness :
  MathjaxSubs.systeme getArgsContent systemeContentsToArray systemePlain
  = Many [ MacroNode (mkMacro "left" None None);
           MacroNode (mkMacro "{" None None);
           EnvironmentNode (mkEnvironment "array" None [StringNode "x+y=1"] None);
           MacroNode (mkMacro "right" None None);
           StringNode "." ]
  ∧ MathjaxSubs.systeme getArgsContent systemeContentsToArray systemeBrackets
    = Many [ MacroNode (mkMacro "left" None None); StringNode "[";
             EnvironmentNode (mkEnvironment "array" None [StringNode "x+y=1"] None);
             MacroNode (mkMacro "right" None None); StringNode "]" ].
Proof.
  split.
  - exact (proj1 (systeme_wraps_with_delimiters
                    getArgsContent systemeContentsToArray systemePlain
                    _ _ eq_refl eq_refl) eq_refl).
  - exact (proj1 (proj2 (systeme_wraps_with_delimiters
                           getArgsContent systemeContentsToArray systemeBrackets
                           _ _ eq_refl eq_refl)
                    [StringNode "["] [StringNode "]"] [] eq_refl)).
Defined.

(** A systeme macro without a render hint whose equations cannot be
    converted is handed back as it is, with no delimiters around it. *)
Lemma systeme_unconverted_is_not_wrapped :
  macro_renderInfo systemePlain ≫= sysdelims = None
  ∧ MathjaxSubs.systeme getArgsContent failingContentsToArray systemePlain
    = One (MacroNode systemePlain).
Proof. split; reflexivity. Qed.

Lemma systeme_failure_returns_node_witness :
  MathjaxSubs.systeme getArgsContent failingContentsToArray systemePlain
  = One (MacroNode systemePlain).
Proof.
  exact (proj1 (proj2 (systeme_failure_returns_node
                         getArgsContent failingContentsToArray systemePlain))
           _ (Error "cannot convert") eq_refl eq_refl).
Defined.

End SampleRuns.

(** * Further facts about lists: errors, dropped nodes, order *)

Section ListEdgeFacts.
Import EnvironmentSubs ListSpec RegistrySpec.

Variable VisitInfo : Type.
Variable wrapPars : list Node → Wrapped.

Local Abbreviation itemToHtml := (EnvironmentSubs.itemToHtml wrapPars).
Local Abbreviation itemsFlatMap := (EnvironmentSubs.itemsFlatMap wrapPars).
Local Abbreviation enumerateFactory :=
  (EnvironmentSubs.enumerateFactory VisitInfo wrapPars).
Local Abbreviation liOf := (ListSpec.liOf wrapPars).
Local Abbreviation itemAfter := (ListSpec.itemAfter wrapPars).

Lemma itemToHtml_empty_arguments (m : Macro) (flag : bool) :
  macro_args m = Some [] →
  ∃ message, itemToHtml (MacroNode m) flag = Throw (TypeError message).
Proof.
  intros Hargs. unfold EnvironmentSubs.itemToHtml, getItemArgs.
  rewrite Hargs. cbn. eauto.
Qed.

(** Either every macro of the sequence is fine, or one has an empty
    argument array. *)
Lemma empty_arguments_dec (items : list Node) :
  (∀ m, MacroNode m ∈ items → macro_args m ≠ Some [])
  ∨ (∃ m, MacroNode m ∈ items ∧ macro_args m = Some []).
Proof.
  induction items as [|node rest [IH | (m & Hin & Hargs)]].
  - left. intros m Hin. apply elem_of_nil in Hin. contradiction.
  - assert (∀ m, node = MacroNode m → macro_args m ≠ Some []
            ∨ macro_args m = Some []) as Hcase.
    { intros m _. destruct (macro_args m) as [[|a args]|];
        [right; reflexivity | left; discriminate | left; discriminate]. }
    destruct node as [m| | | | | | |];
      try (left; intros m' Hin; apply elem_of_cons in Hin as [Heq | Hin];
           [discriminate Heq | exact (IH m' Hin)]).
    destruct (Hcase m eq_refl) as [Hok | Hbad].
    + left. intros m' Hin. apply elem_of_cons in Hin as [Heq | Hin].
      * injection Heq as ->. exact Hok.
      * exact (IH m' Hin).
    + right. exists m. split; [left | exact Hbad].
  - right. exists m. split; [right; exact Hin | exact Hargs].
Qed.

Lemma itemsFlatMap_throws (items : list Node) :
  ∀ flag,
    (∃ m, MacroNode m ∈ items ∧ macro_args m = Some []) →
    ∃ message, itemsFlatMap items flag = Throw (TypeError message).
Proof.
  induction items as [|node rest IH]; intros flag (m & Hin & Hargs).
  - apply elem_of_nil in Hin. contradiction.
  - destruct (empty_arguments_dec [node]) as [Hok | (m0 & Hin0 & Hargs0)].
    + cbn [EnvironmentSubs.itemsFlatMap].
      rewrite itemToHtml_closed_form.
      * cbn [bindExc fst snd].
        destruct (IH (flag || carriesLabel node)) as (message & ->).
        -- exists m. split; [|exact Hargs].
           apply elem_of_cons in Hin as [Heq | Hin]; [|exact Hin].
           exfalso. apply (Hok m); [rewrite Heq; left | exact Hargs].
        -- cbn. eauto.
      * intros m' ->. apply Hok. left.
    + apply list_elem_of_singleton in Hin0. subst node.
      cbn [EnvironmentSubs.itemsFlatMap].
      destruct (itemToHtml_empty_arguments m0 flag Hargs0) as (message & ->).
      cbn. eauto.
Qed.

(** X1.  The list rule throws exactly when an [\item] of the environment
    has an argument array that is empty, and what it throws then is a
    TypeError (the body is read from the last argument, which is not
    there); in every other case it returns. *)
Theorem enumerateFactory_throws_iff_empty_arguments parentTag env info file :
  ((∃ m, MacroNode m ∈ env_content env
         ∧ macro_content m = "item" ∧ macro_args m = Some [])
   ↔ ∃ e, enumerateFactory parentTag env info file = Throw e)
  ∧ (∀ e, enumerateFactory parentTag env info file = Throw e →
          ∃ message, e = TypeError message).
Proof.
  set (items :=
    List.filter (λ node, match_macro node (Some "item")) (env_content env)).
  assert ((∃ m, MacroNode m ∈ env_content env
                ∧ macro_content m = "item" ∧ macro_args m = Some [])
          → ∃ message,
              enumerateFactory parentTag env info file
              = Throw (TypeError message)) as Hthrows.
  { intros (m & Hin & Hitem & Hargs).
    destruct (itemsFlatMap_throws items false) as (message & Hflat).
    - exists m. split; [|exact Hargs]. apply items_of_env.
      split; [exact Hin|]. exists m. split; [reflexivity | exact Hitem].
    - exists message. unfold EnvironmentSubs.enumerateFactory.
      fold items. rewrite Hflat. reflexivity. }
  assert (∀ e, enumerateFactory parentTag env info file = Throw e →
               ∃ m, MacroNode m ∈ env_content env
                    ∧ macro_content m = "item" ∧ macro_args m = Some [])
    as Hbad.
  { intros e He.
    destruct (empty_arguments_dec items) as [Hok | (m & Hin & Hargs)].
    - unfold EnvironmentSubs.enumerateFactory in He. fold items in He.
      rewrite (itemsFlatMap_closed_form wrapPars items false Hok) in He.
      discriminate He.
    - apply items_of_env in Hin as (Hin & m' & Heq & Hitem).
      injection Heq as <-. eauto. }
  split; [split|].
  - intros Hex. destruct (Hthrows Hex) as (message & ->). eauto.
  - intros (e & He). exact (Hbad e He).
  - intros e He. destruct (Hthrows (Hbad e He)) as (message & Hthrow).
    rewrite Hthrow in He. injection He as <-. eauto.
Qed.

Lemma liOf_length (node : Node) :
  (∀ m, node = MacroNode m → macro_args m ≠ Some []) →
  length (liOf node) = (if hasArguments node then 1 else 0)
  ∧ Forall (λ li, tagOf li = Some "li") (liOf node).
Proof.
  intros Hwf. unfold ListSpec.liOf, itemArgsOf, hasArguments.
  destruct node as [m| | | | | | |]; try (split; [reflexivity | constructor]).
  destruct (macro_args m) as [args|] eqn:Hargs.
  - assert (args ≠ []) as Hne by (intros ->; exact (Hwf m eq_refl Hargs)).
    destruct (getItemArgs_returns m args Hargs Hne) as (slot & b & _ & _ & ->).
    split; [reflexivity|]. repeat constructor.
  - unfold getItemArgs. rewrite Hargs. split; [reflexivity | constructor].
Qed.

(** X2.  For a list environment whose items have their bodies attached,
    the list element holds exactly one list-item element per [\item] that
    has arguments, and nothing else: children that are not [\item] macros
    and [\item] macros without an argument array contribute nothing. *)
Theorem enumerateFactory_one_li_per_item parentTag env info file :
  bodiesAttached (env_content env) →
  ∃ tag lis env',
    enumerateFactory parentTag env info file
    = Return {| replacement := One (htmlLike tag lis None);
                env_after := env'; file_after := file |}
    ∧ length lis
      = length (List.filter
                  (λ node, match_macro node (Some "item") && hasArguments node)
                  (env_content env))
    ∧ Forall (λ li, tagOf li = Some "li") lis.
Proof.
  intros Hwf.
  rewrite (enumerateFactory_closed_form VisitInfo wrapPars
             parentTag env info file Hwf).
  eexists _, _, _. split; [reflexivity|].
  assert (∀ m, MacroNode m ∈ env_content env →
               match_macro (MacroNode m) (Some "item") = true →
               macro_args m ≠ Some []) as Hwf'.
  { intros m Hin Hitem. apply (Hwf m Hin).
    cbn in Hitem. apply bool_decide_eq_true_1 in Hitem. exact Hitem. }
  clear Hwf. induction (env_content env) as [|node rest IH].
  - split; [reflexivity | constructor].
  - cbn [List.filter].
    assert (∀ m, MacroNode m ∈ rest →
                 match_macro (MacroNode m) (Some "item") = true →
                 macro_args m ≠ Some []) as Hrest.
    { intros m Hin. apply Hwf'. right. exact Hin. }
    destruct (IH Hrest) as [IHlen IHtag].
    destruct (match_macro node (Some "item")) eqn:Hitem; cbn [andb].
    + destruct (liOf_length node) as [Hlen Htag].
      { intros m ->. apply Hwf'; [left | exact Hitem]. }
      cbn [flat_map]. split.
      * rewrite length_app, Hlen, IHlen.
        destruct (hasArguments node); reflexivity.
      * apply Forall_app. split; [exact Htag | exact IHtag].
    + split; [exact IHlen | exact IHtag].
Qed.

(** X3.  The enumerate rule and the itemize rule do the same work: on every
    environment either both throw the same error, or both return the same
    list items and leave the same environment behind, with tags "ol" and
    "ul" when no item carries a label and with the same tag "dl" when one
    does. *)
Theorem enumerate_and_itemize_agree env info file :
  let items :=
    List.filter (λ node, match_macro node (Some "item")) (env_content env) in
  (∃ e, enumerateFactory "ol" env info file = Throw e
        ∧ enumerateFactory "ul" env info file = Throw e)
  ∨ (∃ lis tagOl tagUl env',
       enumerateFactory "ol" env info file
       = Return {| replacement := One (htmlLike tagOl lis None);
                   env_after := env'; file_after := file |}
       ∧ enumerateFactory "ul" env info file
         = Return {| replacement := One (htmlLike tagUl lis None);
                     env_after := env'; file_after := file |}
       ∧ ((existsb carriesLabel items = false ∧ tagOl = "ol" ∧ tagUl = "ul")
          ∨ (existsb carriesLabel items = true ∧ tagOl = "dl" ∧ tagUl = "dl"))).
Proof.
  intros items.
  destruct (empty_arguments_dec items) as [Hok | Hbad].
  - right. unfold EnvironmentSubs.enumerateFactory. fold items.
    rewrite (itemsFlatMap_closed_form wrapPars items false Hok).
    cbn [bindExc fst snd orb]. eexists _, _, _, _.
    split; [reflexivity|]. split; [reflexivity|].
    destruct (existsb carriesLabel items); auto.
  - left. destruct (itemsFlatMap_throws items false Hbad) as (message & Hthrow).
    exists (TypeError message). unfold EnvironmentSubs.enumerateFactory.
    fold items. rewrite Hthrow. split; reflexivity.
Qed.

(** X4.  An [\item] that has a single argument has that argument read both
    as its label slot and as its body: when the argument is not empty, the
    item carries its own body as a label. *)
Theorem getItemArgs_single_argument (m : Macro) (a : Argument) :
  macro_args m = Some [a] →
  arg_content a ≠ [] →
  getItemArgs m
  = Return {| label := Some (Some (arg_content a)); body := arg_content a |}
  ∧ carriesLabel (MacroNode m) = true.
Proof.
  intros Hargs Hne.
  destruct (getItemArgs_returns m [a] Hargs ltac:(discriminate))
    as (slot & b & Hslot & Hlast & Hget).
  cbn in Hslot, Hlast. injection Hslot as <-. injection Hlast as <-.
  assert (argValue a = Some (arg_content a)) as Hval.
  { unfold argValue. destruct (arg_content a); [contradiction|].
    rewrite andb_false_r. reflexivity. }
  rewrite Hval in Hget. split; [exact Hget|].
  unfold carriesLabel, itemArgsOf. rewrite Hget. reflexivity.
Qed.

Lemma unlabelled_items_flatMap (nodes : list Node) (bodies : list (list Node)) :
  Forall2 unlabelledItem nodes bodies →
  ∀ flag,
    List.filter (λ node, match_macro node (Some "item")) nodes = nodes
    ∧ ∃ nodes',
        itemsFlatMap nodes flag
        = Return (map (λ b, htmlLike "li" (paragraphs (wrapPars b)) None) bodies,
                  flag, nodes').
Proof.
  induction 1 as [|node b nodes bodies Hitem _ IH]; intros flag.
  - split; [reflexivity | eexists; reflexivity].
  - destruct Hitem as (m & lbl & bodyArg & -> & Hname & Hargs & Hopen & Hempty & <-).
    destruct (IH flag) as [IHfilter (nodes' & IHflat)]. split.
    + cbn [List.filter match_macro].
      rewrite (bool_decide_eq_true_2 _ Hname), IHfilter. reflexivity.
    + cbn [EnvironmentSubs.itemsFlatMap]. unfold EnvironmentSubs.itemToHtml.
      rewrite Hargs.
      rewrite (getItemArgs_label_slot m lbl bodyArg (or_introl Hargs) Hempty).
      rewrite (bool_decide_eq_true_2 _ Hopen).
      cbn [bindExc label body fst snd].
      rewrite IHflat. eexists. reflexivity.
Qed.

(** X5.  A list environment that consists of items in the one-slot form,
    none with a label supplied, becomes a list element with the
    caller-supplied tag holding one list-item element per item, in the
    order of the items, each wrapping the paragraph-grouped body of its
    item; the file is left as it was. *)
Theorem enumerateFactory_unlabelled_items_in_order
    parentTag env info file (bodies : list (list Node)) :
  Forall2 unlabelledItem (env_content env) bodies →
  ∃ env',
    enumerateFactory parentTag env info file
    = Return {| replacement :=
                  One (htmlLike parentTag
                         (map (λ b, htmlLike "li" (paragraphs (wrapPars b)) None)
                              bodies) None);
                env_after := env'; file_after := file |}.
Proof.
  intros Hitems. unfold EnvironmentSubs.enumerateFactory.
  destruct (unlabelled_items_flatMap _ _ Hitems false) as [-> (nodes' & ->)].
  eexists. reflexivity.
Qed.

End ListEdgeFacts.

(** * Further facts about objects built from entries *)

Section EntriesFacts.
Import EnvironmentSubs.
Context {V : Type}.

(** Whatever is found in the object was an entry. *)
Lemma fromEntries_lookup_Some (entries : list (string * V)) (k : string) (v : V) :
  fromEntries entries !! k = Some v → (k, v) ∈ entries.
Proof.
  induction entries as [|[k' v'] entries IH] using rev_ind; intros Hlookup.
  - change ((∅ : gmap string V) !! k = Some v) in Hlookup.
    rewrite lookup_empty in Hlookup. discriminate Hlookup.
  - rewrite fromEntries_snoc in Hlookup. apply elem_of_app.
    destruct (decide (k' = k)) as [-> | Hne].
    + rewrite lookup_insert_eq in Hlookup. injection Hlookup as ->.
      right. left.
    + rewrite lookup_insert_ne in Hlookup by exact Hne.
      left. exact (IH Hlookup).
Qed.

Lemma fromEntries_lookup_is_Some (entries : list (string * V)) (k : string) :
  is_Some (fromEntries entries !! k) ↔ k ∈ entries.*1.
Proof.
  split.
  - intros [v Hv]. apply fromEntries_lookup_Some in Hv.
    exact (list_elem_of_fmap_2 fst _ (k, v) Hv).
  - intros Hk. destruct (fromEntries entries !! k) eqn:Hlookup; [eauto|].
    exfalso. revert Hlookup Hk. clear.
    induction entries as [|[k' v'] entries IH] using rev_ind; intros Hlookup Hk.
    + apply elem_of_nil in Hk. contradiction.
    + rewrite fromEntries_snoc in Hlookup. rewrite fmap_app in Hk.
      destruct (decide (k' = k)) as [-> | Hne].
      * rewrite lookup_insert_eq in Hlookup. discriminate Hlookup.
      * rewrite lookup_insert_ne in Hlookup by exact Hne.
        apply elem_of_app in Hk as [Hk | Hk]; [exact (IH Hlookup Hk)|].
        apply list_elem_of_singleton in Hk. cbn in Hk. congruence.
Qed.

End EntriesFacts.

(** * Further facts about blocks and the registry *)

Section RegistryCoverFacts.
Import EnvironmentSubs BlockSpec RegistrySpec.

Variable VisitInfo : Type.
Variable wrapPars : list Node → Wrapped.
Variable makeWarningMessage : Node → string → string → VFileMessage.
Variable createTableFromTabular : EnvironmentSubs.Rule VisitInfo.

Local Abbreviation Rule := (EnvironmentSubs.Rule VisitInfo).
Local Abbreviation enumerateFactory :=
  (EnvironmentSubs.enumerateFactory VisitInfo wrapPars).
Local Abbreviation envFactory :=
  (EnvironmentSubs.envFactory VisitInfo wrapPars makeWarningMessage).
Local Abbreviation expandAliases :=
  (EnvironmentSubs.expandAliases VisitInfo wrapPars makeWarningMessage).
Local Abbreviation genEnvironmentReplacementsFrom :=
  (EnvironmentSubs.genEnvironmentReplacementsFrom
     VisitInfo wrapPars makeWarningMessage).
Local Abbreviation genEnvironmentReplacements :=
  (EnvironmentSubs.genEnvironmentReplacements
     VisitInfo wrapPars makeWarningMessage).
Local Abbreviation explicitReplacements :=
  (EnvironmentSubs.explicitReplacements
     VisitInfo wrapPars makeWarningMessage createTableFromTabular).
Local Abbreviation environmentReplacements :=
  (EnvironmentSubs.environmentReplacements
     VisitInfo wrapPars makeWarningMessage createTableFromTabular).
Local Abbreviation composedContent := (BlockSpec.composedContent wrapPars).

Lemma expandAliases_entry_inv (table : list (string * AliasSpec)) name rule :
  (name, rule) ∈ expandAliases table →
  ∃ canon spec,
    (canon, spec) ∈ table
    ∧ name ∈ canon :: aliases spec
    ∧ rule = envFactory canon (aliasOptions spec).
Proof.
  intros Hin. unfold EnvironmentSubs.expandAliases in Hin.
  apply list_elem_of_In, in_flat_map in Hin as ([canon spec] & Hentry & Hin).
  exists canon, spec. split; [apply list_elem_of_In; exact Hentry|].
  destruct Hin as [Heq | Hin].
  - injection Heq as <- <-. split; [left | reflexivity].
  - apply in_map_iff in Hin as (alias & Heq & Halias).
    injection Heq as <- <-. split; [|reflexivity].
    right. apply list_elem_of_In. exact Halias.
Qed.

Lemma generated_lookup_inv (table : list (string * AliasSpec)) name rule :
  genEnvironmentReplacementsFrom table !! name = Some rule →
  ∃ canon spec,
    (canon, spec) ∈ table
    ∧ name ∈ canon :: aliases spec
    ∧ rule = envFactory canon (aliasOptions spec).
Proof.
  intros Hlookup. apply expandAliases_entry_inv.
  apply fromEntries_lookup_Some. exact Hlookup.
Qed.

(** X6.  Over any alias table, every Rule of the generated registry comes
    from the table: the selector it stands under is the canonical name or
    an alias of some entry, and the Rule is the block rule for that
    entry's canonical name with that entry's statement flag and every
    other option at its default. *)
Theorem generated_rule_comes_from_table
    (table : list (string * AliasSpec)) name (rule : Rule) :
  genEnvironmentReplacementsFrom table !! name = Some rule →
  ∃ canon spec,
    (canon, spec) ∈ table
    ∧ name ∈ canon :: aliases spec
    ∧ rule = envFactory canon
               {| requiresStatementTag := Some (requiresStatement spec);
                  wrapContentInPars := None; extractTitleFromArgs := None;
                  warningMessage := None |}.
Proof. exact (generated_lookup_inv table name rule). Qed.

Lemma registry_lookup_inv name (rule : Rule) :
  environmentReplacements !! name = Some rule →
  (∃ canon spec,
     (canon, spec) ∈ envAliases
     ∧ name ∈ canon :: aliases spec
     ∧ rule = envFactory canon (aliasOptions spec))
  ∨ (name, rule) ∈ explicitReplacements.
Proof.
  unfold EnvironmentSubs.environmentReplacements.
  rewrite objectWithSpread_lookup. fold genEnvironmentReplacements.
  destruct (genEnvironmentReplacements !! name) as [generated|] eqn:Hgen.
  - intros [= <-]. left. exact (generated_lookup_inv envAliases name _ Hgen).
  - intros Hexplicit. right. apply fromEntries_lookup_Some. exact Hexplicit.
Qed.

(** X7.  The own keys of the assembled registry are exactly the seven
    hand-written names and the canonical names and aliases of the table:
    the registry stores a Rule under a name if and only if the name is one
    of these. *)
Theorem registry_selectors name :
  is_Some (environmentReplacements !! name)
  ↔ name ∈ explicitNames ++ aliasNames envAliases.
Proof.
  unfold EnvironmentSubs.environmentReplacements.
  rewrite objectWithSpread_lookup. fold genEnvironmentReplacements.
  rewrite elem_of_app.
  unfold EnvironmentSubs.genEnvironmentReplacements,
    EnvironmentSubs.genEnvironmentReplacementsFrom.
  rewrite <- (expandAliases_names VisitInfo wrapPars makeWarningMessage).
  rewrite <- (fromEntries_lookup_is_Some (expandAliases envAliases)).
  change explicitNames with (explicitReplacements.*1).
  rewrite <- (fromEntries_lookup_is_Some explicitReplacements).
  destruct (fromEntries (expandAliases envAliases) !! name) as [rule|].
  - split; [intros _; right; eauto | intros _; eauto].
  - split; [intros H; left; exact H | intros [H | [x Hx]]; [exact H | discriminate Hx]].
Qed.

Lemma aliasOptions_run canon spec env (info : VisitInfo) file :
  envFactory canon (aliasOptions spec) env info file
  = Return
      {| replacement :=
           One (htmlLike canon
                  (match suppliedTitle env with
                   | Some title => [htmlLike "title" title None]
                   | None => []
                   end
                   ++ (if requiresStatement spec
                       then [htmlLike "statement"
                               (paragraphs (wrapPars (env_content env))) None]
                       else paragraphs (wrapPars (env_content env))))
                  (Some (attachedAttributes env)));
         env_after := BlockSpec.envAfterWrap wrapPars env;
         file_after := file |}.
Proof.
  rewrite envFactory_run.
  unfold BlockSpec.composedContent, writesThrough, aliasOptions, htmlLike.
  cbn. destruct (suppliedTitle env), (requiresStatement spec), file; reflexivity.
Qed.

(** X8.  For every entry of the alias table and every selector among its
    name and aliases, the registry's Rule returns one block tagged with
    the canonical name whose content is: a title element if and only if
    the first argument was supplied, followed by the paragraph-grouped
    body, which is wrapped in one statement element exactly when the entry
    requires a statement.  The file is left as it was. *)
Theorem alias_rule_content canon spec env (info : VisitInfo) file :
  (canon, spec) ∈ envAliases →
  env_env env ∈ canon :: aliases spec →
  ∃ (rule : Rule) env',
    environmentReplacements !! env_env env = Some rule
    ∧ rule env info file
      = Return
          {| replacement :=
               One (htmlLike canon
                      (match suppliedTitle env with
                       | Some title => [htmlLike "title" title None]
                       | None => []
                       end
                       ++ (if requiresStatement spec
                           then [htmlLike "statement"
                                   (paragraphs (wrapPars (env_content env))) None]
                           else paragraphs (wrapPars (env_content env))))
                      (Some (attachedAttributes env)));
             env_after := env';
             file_after := file |}.
Proof.
  intros Hentry Hname. exists (envFactory canon (aliasOptions spec)). eexists.
  split; [|apply aliasOptions_run].
  exact (registry_lookup_generated VisitInfo wrapPars makeWarningMessage
           createTableFromTabular canon spec _ Hentry Hname).
Qed.

(** X9.  The figure and table rules are containers: each returns one block
    with its own name as tag whose content is the environment's content as
    it stands, not grouped into paragraphs, with no statement element and
    with no title element even when an optional argument was supplied. *)
Theorem container_rules_keep_content env (info : VisitInfo) file :
  ∃ figure table : Rule,
    environmentReplacements !! "figure" = Some figure
    ∧ environmentReplacements !! "table" = Some table
    ∧ figure env info file
      = Return {| replacement :=
                    One (htmlLike "figure" (env_content env)
                           (Some (attachedAttributes env)));
                  env_after := env; file_after := file |}
    ∧ table env info file
      = Return {| replacement :=
                    One (htmlLike "table" (env_content env)
                           (Some (attachedAttributes env)));
                  env_after := env; file_after := file |}.
Proof.
  exists (envFactory "figure" containerOptions),
         (envFactory "table" containerOptions).
  split; [apply (registry_lookup_explicit VisitInfo wrapPars makeWarningMessage);
          unfold EnvironmentSubs.explicitReplacements;
          repeat first [left; reflexivity | right]|].
  split; [apply (registry_lookup_explicit VisitInfo wrapPars makeWarningMessage);
          unfold EnvironmentSubs.explicitReplacements;
          repeat first [left; reflexivity | right]|].
  rewrite !envFactory_run.
  unfold BlockSpec.composedContent, writesThrough, containerOptions, htmlLike.
  cbn. destruct (suppliedTitle env), file; split; reflexivity.
Qed.

(** X10.  The center and quote selectors hold the same Rule: one
    "blockquote" block whose content is the title element (if the first
    argument was supplied) followed by the paragraph-grouped body, with no
    statement element; the file is left as it was. *)
Theorem center_and_quote_are_blockquotes env (info : VisitInfo) file :
  ∃ (rule : Rule) env',
    environmentReplacements !! "center" = Some rule
    ∧ environmentReplacements !! "quote" = Some rule
    ∧ rule env info file
      = Return {| replacement :=
                    One (htmlLike "blockquote"
                           (match suppliedTitle env with
                            | Some title => [htmlLike "title" title None]
                            | None => []
                            end ++ paragraphs (wrapPars (env_content env)))
                           (Some (attachedAttributes env)));
                  env_after := env'; file_after := file |}.
Proof.
  exists (envFactory "blockquote" noOptions). eexists.
  split; [apply (registry_lookup_explicit VisitInfo wrapPars makeWarningMessage);
          unfold EnvironmentSubs.explicitReplacements;
          repeat first [left; reflexivity | right]|].
  split; [apply (registry_lookup_explicit VisitInfo wrapPars makeWarningMessage);
          unfold EnvironmentSubs.explicitReplacements;
          repeat first [left; reflexivity | right]|].
  rewrite envFactory_run.
  unfold BlockSpec.composedContent, writesThrough, noOptions, htmlLike.
  cbn. destruct (suppliedTitle env), file; reflexivity.
Qed.

(** X11.  Every Rule stored under an own key of the assembled registry,
    the list rules and the table delegate apart, returns on every
    environment and never throws; it returns exactly one block, whose tag
    is "blockquote", "figure", "table" or a canonical name of the alias
    table, and it records no diagnostic. *)
Theorem registry_block_rules_are_quiet name (rule : Rule) env (info : VisitInfo) file :
  environmentReplacements !! name = Some rule →
  name ∉ ["enumerate"; "itemize"; "tabular"] →
  ∃ tag content attributes env',
    rule env info file
    = Return {| replacement := One (HtmlLike tag content attributes);
                env_after := env'; file_after := file |}
    ∧ tag ∈ ["blockquote"; "figure"; "table"] ++ canonicalNames envAliases.
Proof.
  intros Hlookup Hname.
  apply registry_lookup_inv in Hlookup
    as [(canon & spec & Hentry & _ & ->) | Hexplicit].
  - rewrite aliasOptions_run. eexists _, _, _, _. split; [reflexivity|].
    apply elem_of_app. right.
    exact (list_elem_of_fmap_2 fst _ (canon, spec) Hentry).
  - unfold EnvironmentSubs.explicitReplacements in Hexplicit.
    assert (∀ tag options,
              warningMessage options = None →
              tag ∈ ["blockquote"; "figure"; "table"] →
              ∃ tag' content attributes env',
                envFactory tag options env info file
                = Return {| replacement := One (HtmlLike tag' content attributes);
                            env_after := env'; file_after := file |}
                ∧ tag' ∈ ["blockquote"; "figure"; "table"]
                         ++ canonicalNames envAliases) as Hrun.
    { intros tag options Hquiet Htag. rewrite envFactory_run.
      rewrite Hquiet. eexists tag, _, _, _. split.
      - destruct file; reflexivity.
      - apply elem_of_app. left. exact Htag. }
    repeat (apply elem_of_cons in Hexplicit as [Heq | Hexplicit];
            [injection Heq as -> ->|]).
    + exfalso. apply Hname. left.
    + exfalso. apply Hname. right. left.
    + exfalso. apply Hname. right. right. left.
    + apply Hrun; [reflexivity | left].
    + apply Hrun; [reflexivity | left].
    + apply Hrun; [reflexivity | right; left].
    + apply Hrun; [reflexivity | right; right; left].
    + apply elem_of_nil in Hexplicit. contradiction.
Qed.

(** X12.  The warning of a block rule is a side effect only: with or
    without a warning message, and with or without a file, the Rule
    returns the same replacement and leaves the environment in the same
    state.  Given a file and a warning message that is not the empty
    string it appends exactly one diagnostic after those the file already
    holds, made from the environment node and the message and reported
    with the place and source of the message itself; in every other case
    the file is left as it was. *)
Theorem envFactory_warning_is_side_effect
    tag requires wrap extract text env (info : VisitInfo) file :
  let options :=
    {| requiresStatementTag := requires; wrapContentInPars := wrap;
       extractTitleFromArgs := extract; warningMessage := text |} in
  let quiet :=
    {| requiresStatementTag := requires; wrapContentInPars := wrap;
       extractTitleFromArgs := extract; warningMessage := None |} in
  ∃ replaced env',
    envFactory tag quiet env info None
    = Return {| replacement := replaced; env_after := env'; file_after := None |}
    ∧ envFactory tag options env info file
      = Return
          {| replacement := replaced;
             env_after := env';
             file_after :=
               match file, text with
               | Some f, Some (String c rest) =>
                   let message :=
                     makeWarningMessage (EnvironmentNode env)
                       (String c rest) "env-subs" in
                   Some {| messages :=
                             messages f
                             ++ [ {| diag_reason := message;
                                     diag_place := place message;
                                     diag_origin := source message |} ] |}
               | _, _ => file
               end |}.
Proof.
  intros options quiet. rewrite !envFactory_run. eexists _, _.
  split; [reflexivity|]. unfold options, quiet, writesThrough. cbn.
  destruct file as [f|], text as [[|c rest]|]; reflexivity.
Qed.

End RegistryCoverFacts.

(** * Further facts about the systeme rule *)

Section SystemeCoverFacts.
Import MathjaxSubs RegistrySpec.

Variable getArgsContent : Macro → Exc (list (option (list Node))).
Variable systemeContentsToArray : list Node → SystemeOptions → Exc Node.

Local Abbreviation systeme :=
  (MathjaxSubs.systeme getArgsContent systemeContentsToArray).
Local Abbreviation converted args :=
  (systemeContentsToArray (default [] (mjoin (args !! 3)))
     {| properSpacing := false; whitelistedVariables := mjoin (args !! 1) |}).

(** X13.  The systeme rule hands back the single original node exactly
    when argument extraction or the array conversion threw.  When both
    returned, it hands back a sequence of at least three nodes that starts
    with \left and holds the converted array followed by \right, so a
    rewritten systeme is never mistaken for a pass-through. *)
Theorem systeme_passes_through_iff_failure node :
  (systeme node = One (MacroNode node)
   ↔ (∃ e, getArgsContent node = Throw e)
     ∨ (∃ args e, getArgsContent node = Return args ∧ converted args = Throw e))
  ∧ (∀ args ret,
       getArgsContent node = Return args →
       converted args = Return ret →
       ∃ front back,
         systeme node = Many (LEFT :: front ++ ret :: RIGHT :: back)
         ∧ (3 ≤ length (replacementNodes (systeme node)))%nat).
Proof.
  unfold MathjaxSubs.systeme, MathjaxSubs.systemeTry. split; [split|].
  - destruct (getArgsContent node) as [args|e]; [|eauto].
    cbn [bindExc]. destruct (converted args) as [ret|e] eqn:Hconv.
    + cbn [bindExc].
      destruct (macro_renderInfo node ≫= sysdelims); discriminate.
    + intros _. right. eauto.
  - intros [(e & ->) | (args & e & -> & Hconv)]; [reflexivity|].
    cbn [bindExc]. rewrite Hconv. reflexivity.
  - intros args ret -> Hconv. cbn [bindExc]. rewrite Hconv. cbn [bindExc].
    destruct (macro_renderInfo node ≫= sysdelims) as [delims|].
    + exists (default [] (mjoin (delims !! 0))),
             (default [] (mjoin (delims !! 1))).
      split; [reflexivity|]. cbn. rewrite length_app. cbn. lia.
    + exists [DEFAULT_LEFT_DELIM], [DEFAULT_RIGHT_DELIM].
      split; [reflexivity|]. cbn. lia.
Qed.

(** X14.  A sysdelims hint switches the default delimiters off even where
    it resolves nothing: each side contributes the tokens of its resolved
    sequence, and no token at all when its entry is null or missing, so a
    hint without entries yields \left, the array, \right and nothing
    else. *)
Theorem systeme_hint_without_delimiters node args ret delims :
  getArgsContent node = Return args →
  converted args = Return ret →
  macro_renderInfo node ≫= sysdelims = Some delims →
  systeme node
  = Many ([LEFT]
          ++ match delims !! 0 with Some (Some front) => front | _ => [] end
          ++ [ret; RIGHT]
          ++ match delims !! 1 with Some (Some back) => back | _ => [] end)
  ∧ (delims = [] → systeme node = Many [LEFT; ret; RIGHT]).
Proof.
  intros Hargs Hconv Hhint.
  assert (systeme node
          = Many ([LEFT]
                  ++ match delims !! 0 with Some (Some front) => front | _ => [] end
                  ++ [ret; RIGHT]
                  ++ match delims !! 1 with Some (Some back) => back | _ => [] end))
    as Hrun.
  { unfold MathjaxSubs.systeme.
    rewrite (systemeTry_converted getArgsContent systemeContentsToArray
               node args ret Hargs Hconv), Hhint.
    destruct (delims !! 0) as [[front|]|], (delims !! 1) as [[back|]|];
      reflexivity. }
  split; [exact Hrun|]. intros ->. exact Hrun.
Qed.

End SystemeCoverFacts.

(** * Further facts about environment removal *)

Section RemovalCoverFacts.
Import EnvironmentSubs.

Variable VisitInfo : Type.
Variable makeWarningMessage : Node → string → string → VFileMessage.

Local Abbreviation removeEnv :=
  (EnvironmentSubs.removeEnv VisitInfo makeWarningMessage).

(** The diagnostic [removeEnv] records for an environment. *)
Local Abbreviation removalWarning env :=
  {| diag_reason :=
       makeWarningMessage (EnvironmentNode env)
         (removeEnvWarning (env_env env)) "environment-subs";
     diag_place := None; diag_origin := None |}.

(** X15.  Removals compose on one file: removing one environment and then
    another, the second on the file the first left behind, keeps every
    diagnostic the file already held and appends the two warnings in the
    order of the calls; each call returns the content of its own
    environment. *)
Theorem removeEnv_twice_appends_in_order
    env1 env2 (info1 info2 : VisitInfo) (f : VFile) :
  ∃ f1 f2,
    removeEnv env1 info1 (Some f)
    = Return {| replacement := Many (env_content env1);
                env_after := env1; file_after := Some f1 |}
    ∧ removeEnv env2 info2 (Some f1)
      = Return {| replacement := Many (env_content env2);
                  env_after := env2; file_after := Some f2 |}
    ∧ messages f2 = messages f ++ [removalWarning env1; removalWarning env2].
Proof.
  unfold EnvironmentSubs.removeEnv. eexists _, _.
  split; [reflexivity|]. split; [reflexivity|].
  cbn. rewrite <- app_assoc. reflexivity.
Qed.

End RemovalCoverFacts.

(** * What the list rule leaves behind *)

Section ListFrameFacts.
Import EnvironmentSubs ListSpec.

Variable VisitInfo : Type.
Variable wrapPars : list Node → Wrapped.

Local Abbreviation enumerateFactory :=
  (EnvironmentSubs.enumerateFactory VisitInfo wrapPars).
Local Abbreviation itemAfter := (ListSpec.itemAfter wrapPars).

Lemma itemAfter_last_argument (m : Macro) (args : list Argument) (bodyArg : Argument) :
  macro_args m = Some args →
  last args = Some bodyArg →
  itemAfter (MacroNode m)
  = MacroNode
      (set_macro_args m
         (Some (alter (λ a, set_arg_content a
                              (trimmed (wrapPars (arg_content bodyArg))))
                      (length args - 1) args))).
Proof.
  intros Hargs Hlast. unfold ListSpec.itemAfter, itemArgsOf. rewrite Hargs.
  assert (args ≠ []) as Hne.
  { intros ->. discriminate Hlast. }
  destruct (getItemArgs_returns m args Hargs Hne)
    as (slot & b & _ & Hlast' & ->).
  rewrite Hlast in Hlast'. injection Hlast' as <-. reflexivity.
Qed.

(** X16.  For a list environment whose items have their bodies attached,
    the list rule leaves the file as it was and changes the environment
    node in one respect only: in every [\item] macro that has arguments,
    the content array of the last argument (the item's body) holds what
    [wrapPars] left in it; every other child, and every [\item] without
    arguments, stays as it was. *)
Theorem enumerateFactory_touches_item_bodies_only parentTag env info file :
  bodiesAttached (env_content env) →
  ∃ out,
    enumerateFactory parentTag env info file = Return out
    ∧ file_after out = file
    ∧ env_after out
      = set_env_content env
          (map (λ node,
                  if match_macro node (Some "item") then itemAfter node else node)
               (env_content env))
    ∧ (∀ m, macro_args m = None → itemAfter (MacroNode m) = MacroNode m)
    ∧ (∀ m args bodyArg,
         macro_args m = Some args →
         last args = Some bodyArg →
         itemAfter (MacroNode m)
         = MacroNode
             (set_macro_args m
                (Some (alter (λ a, set_arg_content a
                                     (trimmed (wrapPars (arg_content bodyArg))))
                             (length args - 1) args)))).
Proof.
  intros Hwf.
  rewrite (enumerateFactory_closed_form VisitInfo wrapPars
             parentTag env info file Hwf).
  eexists. split; [reflexivity|]. split; [reflexivity|].
  split; [reflexivity|]. split.
  - intros m Hnone. unfold ListSpec.itemAfter. rewrite Hnone. reflexivity.
  - exact itemAfter_last_argument.
Qed.

End ListFrameFacts.

(** * More sample runs *)

Lemma registry_holds_quote :
  ∃ rule, Sample.environmentReplacements !! "quote" = Some rule.
Proof.
  eexists. unfold Sample.environmentReplacements.
  apply registry_lookup_explicit.
  unfold EnvironmentSubs.explicitReplacements.
  repeat first [left; reflexivity | right].
Qed.

Section MoreSampleRuns.
Import Sample.

Ltac in_list := repeat first [left; reflexivity | right].

Ltac bodies_attached :=
  intros m Hin _ Hargs; cbn in Hin;
  repeat match goal with
         | H : _ ∈ _ :: _ |- _ => apply elem_of_cons in H as [H | H]
         | H : _ ∈ [] |- _ => apply elem_of_nil in H; contradiction
         end;
  try discriminate;
  match goal with
  | H : MacroNode _ = _ |- _ => injection H as ->; discriminate Hargs
  end.

Ltac unlabelled_item :=
  eexists _, _, _; repeat split; reflexivity.

Lemma enumerateFactory_one_li_per_item_witness :
  ∃ tag lis env',
    enumerateFactory "ul" mixedList tt None
    = Return {| replacement := One (htmlLike tag lis None);
                env_after := env'; file_after := None |}
    ∧ length lis = 2.
Proof.
  assert (ListSpec.bodiesAttached (env_content mixedList)) as Hwf
    by bodies_attached.
  destruct (enumerateFactory_one_li_per_item
              VisitInfo wrapPars "ul" mixedList tt None Hwf)
    as (tag & lis & env' & Hrun & Hlen & _).
  exists tag, lis, env'. split; [exact Hrun | exact Hlen].
Defined.

Lemma enumerateFactory_touches_item_bodies_only_witness :
  ∃ out,
    enumerateFactory "ul" spacedList tt None = Return out
    ∧ env_after out
      = mkEnvironment "itemize" None
          [ item [noArg; bodyArg [StringNode "a"]]; Whitespace ] None.
Proof.
  assert (ListSpec.bodiesAttached (env_content spacedList)) as Hwf
    by bodies_attached.
  destruct (enumerateFactory_touches_item_bodies_only
              VisitInfo wrapPars "ul" spacedList tt None Hwf)
    as (out & Hrun & _ & Henv & _).
  exists out. split; [exact Hrun|]. rewrite Henv. reflexivity.
Defined.

Lemma getItemArgs_single_argument_witness :
  EnvironmentSubs.getItemArgs bodyOnlyItem
  = Return {| EnvironmentSubs.label := Some (Some [StringNode "a"]);
              EnvironmentSubs.body := [StringNode "a"] |}.
Proof.
  exact (proj1 (getItemArgs_single_argument bodyOnlyItem
                  (bodyArg [StringNode "a"]) eq_refl ltac:(discriminate))).
Defined.

Lemma enumerateFactory_unlabelled_items_witness :
  ∃ env',
    enumerateFactory "ul" plainList tt None
    = Return {| replacement :=
                  One (htmlLike "ul"
                         [ htmlLike "li"
                             (EnvironmentSubs.paragraphs (wrapPars [StringNode "a"]))
                             None;
                           htmlLike "li"
                             (EnvironmentSubs.paragraphs (wrapPars [StringNode "b"]))
                             None ] None);
                env_after := env'; file_after := None |}.
Proof.
  apply (enumerateFactory_unlabelled_items_in_order
           VisitInfo wrapPars "ul" plainList tt None
           [[StringNode "a"]; [StringNode "b"]]).
  repeat constructor; unlabelled_item.
Defined.

Lemma generated_rule_comes_from_table_witness :
  ∃ canon spec,
    (canon, spec) ∈ EnvironmentSubs.envAliases
    ∧ "thm" ∈ canon :: EnvironmentSubs.aliases spec.
Proof.
  destruct (generated_rule_comes_from_table
              VisitInfo wrapPars makeWarningMessage
              EnvironmentSubs.envAliases "thm" _
              (generated_lookup VisitInfo wrapPars makeWarningMessage
                 "theorem"
                 (EnvironmentSubs.mkAliasSpec true
                    ["thm"; "theo"; "theor"; "thmss"; "thrm"])
                 "thm" ltac:(in_list) ltac:(in_list)))
    as (canon & spec & Hentry & Hname & _).
  exists canon, spec. split; [exact Hentry | exact Hname].
Defined.

Lemma alias_rule_content_witness :
  ∃ env',
    runRule environmentReplacements proofEnv None
    = Some (Return
        {| replacement :=
             One (htmlLike "proof"
                    (EnvironmentSubs.paragraphs (wrapPars [StringNode "done"]))
                    (Some ∅));
           env_after := env'; file_after := None |}).
Proof.
  destruct (alias_rule_content
              VisitInfo wrapPars makeWarningMessage createTableFromTabular
              "proof" (EnvironmentSubs.mkAliasSpec false ["pf"; "prf"; "demo"])
              proofEnv tt None ltac:(in_list) ltac:(in_list))
    as (rule & env' & Hregistry & Hrun).
  exists env'. unfold runRule, environmentReplacements. cbv zeta.
  rewrite Hregistry. rewrite Hrun. reflexivity.
Defined.

Lemma registry_block_rules_are_quiet_witness :
  ∃ tag content attributes env',
    runRule environmentReplacements quoteEnv (Some emptyFile)
    = Some (Return {| replacement := One (HtmlLike tag content attributes);
                      env_after := env'; file_after := Some emptyFile |}).
Proof.
  destruct registry_holds_quote as (rule & Hregistry).
  destruct (registry_block_rules_are_quiet
              VisitInfo wrapPars makeWarningMessage createTableFromTabular
              "quote" rule quoteEnv tt (Some emptyFile) Hregistry
              ltac:(intros Hin;
                    repeat (apply elem_of_cons in Hin as [Heq | Hin];
                            [discriminate Heq|]);
                    apply elem_of_nil in Hin; contradiction))
    as (tag & content & attributes & env' & Hrun & _).
  exists tag, content, attributes, env'.
  unfold runRule. cbv zeta.
  change (env_env quoteEnv) with "quote". rewrite Hregistry, Hrun. reflexivity.
Defined.

Lemma systeme_hint_without_delimiters_witness :
  MathjaxSubs.systeme getArgsContent systemeContentsToArray systemeEmptyHint
  = Many [ MathjaxSubs.LEFT;
           EnvironmentNode (mkEnvironment "array" None [StringNode "x+y=1"] None);
           MathjaxSubs.RIGHT ].
Proof.
  exact (proj2 (systeme_hint_without_delimiters
                  getArgsContent systemeContentsToArray systemeEmptyHint
                  _ _ [] eq_refl eq_refl eq_refl) eq_refl).
Defined.

End MoreSampleRuns.
